(** * PDF-Extractor: the rule-based field extractor of [main.py]

    A shallow embedding of [extract_fields_rule_based], of the six
    compiled patterns it searches with, and of the upload loop that
    feeds it, followed by the properties the specification states
    about them.

    Texts are Python [str] values restricted to the code points
    U+0000..U+00FF, one [ascii] per code point.  The character
    classes below are the ones CPython's Unicode database gives on
    that range. *)

From Stdlib Require Import Ascii String Bool Arith Lia List.
Import ListNotations.
Local Open Scope list_scope.


Definition text := list ascii.

Definition str (s : string) : text := list_ascii_of_string s.
Arguments str s%_string.

Definition LF : ascii := ascii_of_nat 10.
Definition CR : ascii := ascii_of_nat 13.

(** ** Character classes *)

Module Chr.

Definition code (c : ascii) : nat := nat_of_ascii c.

Definition between (lo hi : nat) (c : ascii) : bool :=
  (lo <=? code c) && (code c <=? hi).

Definition code_is (n : nat) (c : ascii) : bool := code c =? n.

(** [\d] on a [str] pattern: the decimal digits. *)
Definition is_digit (c : ascii) : bool := between 48 57 c.

(** [[A-Z]], [[a-z]]: literal ranges of the patterns. *)
Definition is_AZ (c : ascii) : bool := between 65 90 c.
Definition is_az (c : ascii) : bool := between 97 122 c.

(** [\s], and the characters [str.strip()] removes: [str.isspace]. *)
Definition is_space (c : ascii) : bool :=
  between 9 13 c || between 28 32 c || code_is 133 c || code_is 160 c.

(** [\w]: [str.isalnum] or the underscore. *)
Definition is_word (c : ascii) : bool :=
  is_digit c || is_AZ c || is_az c || code_is 95 c
  || code_is 170 c || code_is 178 c || code_is 179 c || code_is 181 c || code_is 185 c || code_is 186 c
  || between 188 190 c || between 192 214 c || between 216 246 c
  || between 248 255 c.

(** The line boundaries of [str.splitlines]. *)
Definition is_linebreak (c : ascii) : bool :=
  between 10 13 c || between 28 30 c || code_is 133 c.

(** [str.lower] on one character. *)
Definition lower (c : ascii) : ascii :=
  if is_AZ c || (between 192 222 c && negb (code_is 215 c))
  then ascii_of_nat (code c + 32) else c.

End Chr.

(** ** Python string operations used by the extractor *)

Module Py.

Fixpoint text_eqb (a b : text) : bool :=
  match a, b with
  | [], [] => true
  | x :: a', y :: b' => Ascii.eqb x y && text_eqb a' b'
  | _, _ => false
  end.

(** [s.replace(old, new)] for single characters. *)
Definition replace (old new : ascii) (s : text) : text :=
  map (fun c => if Ascii.eqb c old then new else c) s.

Fixpoint lstrip (s : text) : text :=
  match s with
  | c :: s' => if Chr.is_space c then lstrip s' else s
  | [] => []
  end.

Definition rstrip (s : text) : text := rev (lstrip (rev s)).

Definition strip (s : text) : text := rstrip (lstrip s).

Definition lower (s : text) : text := map Chr.lower s.

Fixpoint startswith (p s : text) : bool :=
  match p, s with
  | [], _ => true
  | x :: p', y :: s' => Ascii.eqb x y && startswith p' s'
  | _ :: _, [] => false
  end.

(** [needle in hay]. *)
Fixpoint contains (needle hay : text) : bool :=
  startswith needle hay
  || match hay with
     | [] => false
     | _ :: hay' => contains needle hay'
     end.

(** [s.splitlines()]: [acc] holds the current line, reversed.  A line
    break closes the current line; [\r\n] counts as one break; no
    empty line is produced after a final break. *)
Fixpoint splitlines_from (acc s : text) : list text :=
  match s with
  | [] => match acc with [] => [] | _ => [rev acc] end
  | c :: s' =>
      if Chr.is_linebreak c then
        rev acc ::
        match s' with
        | d :: s'' =>
            if Ascii.eqb c CR && Ascii.eqb d LF
            then splitlines_from [] s''
            else splitlines_from [] s'
        | [] => splitlines_from [] s'
        end
      else splitlines_from (c :: acc) s'
  end.

Definition splitlines (s : text) : list text := splitlines_from [] s.

(** [s.split(sep)] for a one-character separator: [acc] is the current
    part, reversed.  The result always has at least one part. *)
Fixpoint split_from (sep : ascii) (acc s : text) : list text :=
  match s with
  | [] => [rev acc]
  | c :: s' =>
      if Ascii.eqb c sep then rev acc :: split_from sep [] s'
      else split_from sep (c :: acc) s'
  end.

Definition split (sep : ascii) (s : text) : list text := split_from sep [] s.

(** [s.split(sep, 1)]: at most one cut, at the first separator. *)
Fixpoint split1_from (sep : ascii) (acc s : text) : list text :=
  match s with
  | [] => [rev acc]
  | c :: s' =>
      if Ascii.eqb c sep then [rev acc; s']
      else split1_from sep (c :: acc) s'
  end.

Definition split1 (sep : ascii) (s : text) : list text := split1_from sep [] s.

(** [sep.join(parts)]. *)
Fixpoint join (sep : text) (parts : list text) : text :=
  match parts with
  | [] => []
  | [p] => p
  | p :: ps => p ++ sep ++ join sep ps
  end.

(** [s[-n:]] for [n > 0]. *)
Definition last_n (n : nat) (s : text) : text := skipn (length s - n) s.

(** [l[a:b]]. *)
Definition slice {A} (a b : nat) (l : list A) : list A :=
  firstn (b - a) (skipn a l).

(** [l[a:]]. *)
Definition slice_from {A} (a : nat) (l : list A) : list A := skipn a l.

(** [any(key in low for key in keys)]. *)
Definition any_in (keys : list text) (low : text) : bool :=
  existsb (fun key => contains key low) keys.

End Py.

(** ** Exceptions *)

Inductive exn : Type :=
| IndexError
| PdfError.

Inductive result (A : Type) : Type :=
| Ok (a : A)
| Raise (e : exn).

Arguments Ok {A} a.
Arguments Raise {A} e.

Definition bind {A B} (m : result A) (f : A -> result B) : result B :=
  match m with
  | Ok a => f a
  | Raise e => Raise e
  end.

Notation "x <- m ;; k" := (bind m (fun x => k))
  (at level 61, m at next level, right associativity).

(** [l[i]] for [i >= 0]. *)
Definition subscript {A} (l : list A) (i : nat) : result A :=
  match nth_error l i with
  | Some a => Ok a
  | None => Raise IndexError
  end.

(** ** A backtracking matcher for the patterns of the pattern library *)

Module Re.

(** The constructs the six patterns use: [\b], a character class with
    a greedy counted repetition, concatenation and a greedy optional
    group. *)
Inductive regex : Type :=
| Bnd
| Rep (cls : ascii -> bool) (lo : nat) (hi : option nat)
| Seq (a b : regex)
| Opt (a : regex).

Definition Cls (cls : ascii -> bool) : regex := Rep cls 1 (Some 1).
Definition Lit (c : ascii) : regex := Cls (Ascii.eqb c).
Definition Times (cls : ascii -> bool) (n : nat) : regex := Rep cls n (Some n).
Definition Maybe (cls : ascii -> bool) : regex := Rep cls 0 (Some 1).

Fixpoint cat (rs : list regex) : regex :=
  match rs with
  | [] => Rep (fun _ => false) 0 (Some 0)
  | [r] => r
  | r :: rs' => Seq r (cat rs')
  end.

(** A position in the subject is the character before it (if any) and
    the text from it on. *)
Definition word_before (prev : option ascii) : bool :=
  match prev with
  | Some c => Chr.is_word c
  | None => false
  end.

Definition word_after (s : text) : bool :=
  match s with
  | c :: _ => Chr.is_word c
  | [] => false
  end.

Definition at_boundary (prev : option ascii) (s : text) : bool :=
  xorb (word_before prev) (word_after s).

Definition room (hi : option nat) : bool :=
  match hi with
  | Some h => 0 <? h
  | None => true
  end.

Definition cont := option ascii -> text -> option text.

(** Greedy repetition of a class: take one more character while the
    class and the upper bound allow, and give characters back one at a
    time, down to [lo], when the rest of the pattern fails. *)
Fixpoint rep (cls : ascii -> bool) (lo : nat) (hi : option nat)
    (prev : option ascii) (s : text) (k : cont) : option text :=
  let stop := if lo =? 0 then k prev s else None in
  match s with
  | c :: s' =>
      if cls c && room hi then
        match rep cls (pred lo) (option_map pred hi) (Some c) s' k with
        | Some rest => Some rest
        | None => stop
        end
      else stop
  | [] => stop
  end.

(** [exec r prev s k]: match [r] at the position [(prev, s)], then the
    rest of the pattern [k]; the answer is the text left after the
    whole match. *)
Fixpoint exec (r : regex) (prev : option ascii) (s : text) (k : cont)
    : option text :=
  match r with
  | Bnd => if at_boundary prev s then k prev s else None
  | Rep cls lo hi => rep cls lo hi prev s k
  | Seq a b => exec a prev s (fun prev' s' => exec b prev' s' k)
  | Opt a =>
      match exec a prev s k with
      | Some rest => Some rest
      | None => k prev s
      end
  end.

(** [pattern.match] at one position: the text left after the match. *)
Definition match_at (r : regex) (prev : option ascii) (s : text)
    : option text :=
  exec r prev s (fun _ rest => Some rest).

(** [m.group(0)] of a match that starts at [s] and leaves [rest]. *)
Definition group0 (s rest : text) : text :=
  firstn (length s - length rest) s.

(** [pattern.search]: the match at the leftmost position that has one. *)
Fixpoint search_from (r : regex) (prev : option ascii) (s : text)
    : option text :=
  match match_at r prev s with
  | Some rest => Some (group0 s rest)
  | None =>
      match s with
      | [] => None
      | c :: s' => search_from r (Some c) s'
      end
  end.

Definition search (r : regex) (s : text) : option text :=
  search_from r None s.

(** [pattern.finditer], as the list of the [group(0)] of its matches:
    leftmost matches that do not overlap.  [skip] counts the
    characters of the last match still to step over.  (The patterns it
    is used with match no empty text.) *)
Fixpoint finditer_from (r : regex) (prev : option ascii) (s : text)
    (skip : nat) : list text :=
  match skip with
  | S n =>
      match s with
      | [] => []
      | c :: s' => finditer_from r (Some c) s' n
      end
  | 0 =>
      match match_at r prev s with
      | Some rest =>
          group0 s rest ::
          match s with
          | [] => []
          | c :: s' =>
              finditer_from r (Some c) s' (pred (length s - length rest))
          end
      | None =>
          match s with
          | [] => []
          | c :: s' => finditer_from r (Some c) s' 0
          end
      end
  end.

Definition finditer (r : regex) (s : text) : list text :=
  finditer_from r None s 0.

(** [re.sub(r"\D", "", s)]. *)
Definition digits_only (s : text) : text := filter Chr.is_digit s.

End Re.

(** ** The pattern library *)

Definition chr (s : string) : ascii :=
  match s with
  | String c _ => c
  | EmptyString => zero
  end.
Arguments chr s%_string.

Definition one_of (s : string) (c : ascii) : bool :=
  existsb (Ascii.eqb c) (str s).
Arguments one_of s%_string c.

Definition alnum_ascii (c : ascii) : bool :=
  Chr.is_az c || Chr.is_AZ c || Chr.is_digit c.

(** [\b[A-Z]{5}[0-9]{4}[A-Z]\b] *)
Definition PAN_REGEX : Re.regex :=
  Re.cat [Re.Bnd; Re.Times Chr.is_AZ 5; Re.Times Chr.is_digit 4;
          Re.Cls Chr.is_AZ; Re.Bnd].

(** [\b\d{4}\s?\d{4}\s?\d{4}\b] *)
Definition AADHAAR_REGEX : Re.regex :=
  Re.cat [Re.Bnd; Re.Times Chr.is_digit 4; Re.Maybe Chr.is_space;
          Re.Times Chr.is_digit 4; Re.Maybe Chr.is_space;
          Re.Times Chr.is_digit 4; Re.Bnd].

(** [[a-zA-Z0-9._%+-]+@[a-zA-Z0-9.-]+\.[a-zA-Z]{2,}] *)
Definition EMAIL_REGEX : Re.regex :=
  Re.cat [Re.Rep (fun c => alnum_ascii c || one_of "._%+-" c) 1 None;
          Re.Lit (chr "@");
          Re.Rep (fun c => alnum_ascii c || one_of ".-" c) 1 None;
          Re.Lit (chr ".");
          Re.Rep (fun c => Chr.is_az c || Chr.is_AZ c) 2 None].

(** [(\+91[-\s]?)?[6-9]\d{9}] *)
Definition PHONE_REGEX : Re.regex :=
  Re.cat [Re.Opt (Re.cat [Re.Lit (chr "+"); Re.Lit (chr "9");
                          Re.Lit (chr "1");
                          Re.Maybe (fun c => one_of "-" c || Chr.is_space c)]);
          Re.Cls (Chr.between 54 57); Re.Times Chr.is_digit 9].

(** [\b[A-Z]{4}0[A-Z0-9]{6}\b] *)
Definition IFSC_REGEX : Re.regex :=
  Re.cat [Re.Bnd; Re.Times Chr.is_AZ 4; Re.Lit (chr "0");
          Re.Times (fun c => Chr.is_AZ c || Chr.is_digit c) 6; Re.Bnd].

(** [\b\d{9,18}\b] *)
Definition ACCOUNT_REGEX : Re.regex :=
  Re.cat [Re.Bnd; Re.Rep Chr.is_digit 9 (Some 18); Re.Bnd].

(** ** The extracted record *)

Record record : Type := mkRecord {
  name : option text;
  email : option text;
  phone : option text;
  pan : option text;
  aadhaar : option text;
  address : option text;
  bank_account : option text;
  ifsc : option text;
  emergency_contact_name : option text;
  emergency_contact_phone : option text;
  source_file_name : text
}.

(** ** [extract_fields_rule_based], section by section *)

(** [norm = text.replace("\r", "\n")] *)
Definition normalize (t : text) : text := Py.replace CR LF t.

(** [[ln.strip() for ln in norm.splitlines() if ln.strip()]] *)
Definition trimmed_lines (norm : text) : list text :=
  map Py.strip
      (filter (fun ln => negb (Py.text_eqb (Py.strip ln) []))
              (Py.splitlines norm)).

(** [m.group(0)] of the first match, or [None]. *)
Definition first_match (r : Re.regex) (norm : text) : option text :=
  Re.search r norm.

(** [re.sub(r"\D", "", m.group(0))[-10:]] *)
Definition phone_digits (m : text) : text :=
  Py.last_n 10 (Re.digits_only m).

Definition scan_phone (s : text) : option text :=
  option_map phone_digits (Re.search PHONE_REGEX s).

(** [re.sub(r"\D", "", aadhaar) if aadhaar else ""] *)
Definition aadhaar_digits_of (aadhaar : option text) : text :=
  match aadhaar with
  | Some a => if Py.text_eqb a [] then [] else Re.digits_only a
  | None => []
  end.

(** The test that makes the bank-account loop [continue]. *)
Definition skipped (aadhaar_digits digits : text) : bool :=
  Py.text_eqb digits aadhaar_digits && (length digits =? 12).

(** The bank-account loop over the matches, in order. *)
Fixpoint pick_account (aadhaar_digits : text) (candidates : list text)
    : option text :=
  match candidates with
  | [] => None
  | digits :: more =>
      if skipped aadhaar_digits digits
      then pick_account aadhaar_digits more
      else Some digits
  end.

Definition scan_bank_account (norm : text) (aadhaar : option text)
    : option text :=
  pick_account (aadhaar_digits_of aadhaar) (Re.finditer ACCOUNT_REGEX norm).

(** [key in ln.lower()] *)
Definition mentions (key : string) (ln : text) : bool :=
  Py.contains (str key) (Py.lower ln).
Arguments mentions key%_string ln.

(** [for idx, ln in enumerate(lines): if test(ln): start = idx; break],
    counting from [idx]; [None] stands for the initial [-1]. *)
Fixpoint first_index (test : text -> bool) (lines : list text) (idx : nat)
    : option nat :=
  match lines with
  | [] => None
  | ln :: rest =>
      if test ln then Some idx else first_index test rest (S idx)
  end.

(** The phone loop over the emergency block. *)
Fixpoint block_phone (block : list text) : option text :=
  match block with
  | [] => None
  | ln :: rest =>
      match Re.search PHONE_REGEX ln with
      | Some m => Some (phone_digits m)
      | None => block_phone rest
      end
  end.

(** The body shared by the two name loops:
    [parts = ln.split(":")], then [parts[1].strip()] when
    [len(parts) > 1] and [ln.strip()] otherwise. *)
Definition name_value (ln : text) : result text :=
  let parts := Py.split (chr ":") ln in
  if 1 <? length parts then
    p <- subscript parts 1 ;;
    Ok (Py.strip p)
  else Ok (Py.strip ln).

(** The name loop over the emergency block. *)
Fixpoint block_name (block : list text) : result (option text) :=
  match block with
  | [] => Ok None
  | ln :: rest =>
      if mentions "name" ln then
        v <- name_value ln ;;
        Ok (Some v)
      else block_name rest
  end.

Definition scan_emergency (lines : list text)
    : result (option text * option text) :=
  match first_index (mentions "emergency") lines 0 with
  | None => Ok (None, None)
  | Some ec_start =>
      let block := Py.slice ec_start (ec_start + 5) lines in
      let emergency_phone := block_phone block in
      emergency_name <- block_name block ;;
      Ok (emergency_name, emergency_phone)
  end.

(** The candidate-name loop. *)
Definition is_name_line (ln : text) : bool :=
  mentions "name" ln && negb (mentions "father" ln)
  && negb (mentions "emergency" ln).

Fixpoint scan_name (lines : list text) : result (option text) :=
  match lines with
  | [] => Ok None
  | ln :: rest =>
      if is_name_line ln then
        v <- name_value ln ;;
        Ok (Some v)
      else scan_name rest
  end.

Definition SECTION_KEYS : list text :=
  [str "bank details"; str "bank account"; str "ifsc";
   str "emergency contact"; str "pan number"; str "aadhaar number";
   str "candidate information"].

(** The loop over the lines after the address line: it breaks at the
    first section header. *)
Fixpoint following_lines (lines : list text) : list text :=
  match lines with
  | [] => []
  | ln :: rest =>
      if Py.any_in SECTION_KEYS (Py.lower ln) then []
      else Py.strip ln :: following_lines rest
  end.

Definition nonempty (s : text) : bool := negb (Py.text_eqb s []).

Definition scan_address (lines : list text) : result (option text) :=
  match first_index (mentions "address") lines 0 with
  | None => Ok None
  | Some addr_start =>
      first_line <- subscript lines addr_start ;;
      let parts := Py.split1 (chr ":") first_line in
      head <-
        (if 1 <? length parts then
           p <- subscript parts 1 ;;
           Ok (if nonempty (Py.strip p) then [Py.strip p] else [])
         else Ok []) ;;
      let addr_lines :=
        head ++ following_lines (Py.slice_from (addr_start + 1) lines) in
      Ok (match addr_lines with
          | [] => None
          | _ => Some (Py.join (str ", ") addr_lines)
          end)
  end.

Definition extract_fields_rule_based (t : text) (file_name : text)
    : result record :=
  let norm := normalize t in
  let lines := trimmed_lines norm in
  let email := first_match EMAIL_REGEX norm in
  let phone := scan_phone norm in
  let pan := first_match PAN_REGEX norm in
  let aadhaar := first_match AADHAAR_REGEX norm in
  let ifsc := first_match IFSC_REGEX norm in
  let bank_account := scan_bank_account norm aadhaar in
  emergency <- scan_emergency lines ;;
  name <- scan_name lines ;;
  address <- scan_address lines ;;
  Ok {| name := name;
        email := email;
        phone := phone;
        pan := pan;
        aadhaar := aadhaar;
        address := address;
        bank_account := bank_account;
        ifsc := ifsc;
        emergency_contact_name := fst emergency;
        emergency_contact_phone := snd emergency;
        source_file_name := file_name |}.

(** ** The upload loop *)

(** An uploaded file: what [f.read()] and [f.name] give. *)
Record uploaded_file : Type := mkFile {
  read : list Byte.byte;
  file_name : text
}.

Section Upload.

(** [pdfplumber], from outside the program: for the bytes of one
    file, the [page.extract_text()] of each page in order ([None] for
    a page without text), or the exception raised on the way. *)
Variable pdf_pages : list Byte.byte -> result (list (option text)).

(** [page.extract_text() or ""] *)
Definition page_text (extracted : option text) : text :=
  match extracted with
  | Some t => t
  | None => []
  end.

Definition extract_text_from_pdf_bytes (file_bytes : list Byte.byte)
    : result text :=
  pages <- pdf_pages file_bytes ;;
  Ok (Py.join [LF] (map page_text pages)).

(** [for f in uploaded_files: ...; results.append(row)] *)
Fixpoint process (uploaded_files : list uploaded_file) (results : list record)
    : result (list record) :=
  match uploaded_files with
  | [] => Ok results
  | f :: rest =>
      let file_bytes := read f in
      t <- extract_text_from_pdf_bytes file_bytes ;;
      row <- extract_fields_rule_based t (file_name f) ;;
      process rest (results ++ [row])
  end.

(** What the handler of the button shows. *)
Inductive shown : Type :=
| Warning
| Table (rows : list record)
| Nothing.

Definition on_extract (uploaded_files : list uploaded_file) : result shown :=
  match uploaded_files with
  | [] => Ok Warning
  | _ =>
      results <- process uploaded_files [] ;;
      Ok (match results with
          | [] => Nothing
          | _ => Table results
          end)
  end.

End Upload.

(** ** What a pattern matches, stated without the matcher *)

Module ReSpec.
Import Re.

(** The character before the position reached after reading [m]. *)
Fixpoint last_of (prev : option ascii) (m : text) : option ascii :=
  match m with
  | [] => prev
  | c :: m' => last_of (Some c) m'
  end.

Definition within (hi : option nat) (n : nat) : Prop :=
  match hi with
  | Some h => n <= h
  | None => True
  end.

(** [denote r prev m rest]: the text [m], read after the character
    [prev] and followed by [rest], is matched by [r]. *)
Fixpoint denote (r : regex) (prev : option ascii) (m rest : text) : Prop :=
  match r with
  | Bnd => m = [] /\ at_boundary prev rest = true
  | Rep cls lo hi =>
      forallb cls m = true /\ lo <= length m /\ within hi (length m)
  | Seq a b =>
      exists m1 m2, m = m1 ++ m2 /\ denote a prev m1 (m2 ++ rest)
                    /\ denote b (last_of prev m1) m2 rest
  | Opt a => m = [] \/ denote a prev m rest
  end.

(** [r] matches somewhere in [s]: at [m], after [pre]. *)
Definition occurs_at (r : regex) (s pre m post : text) : Prop :=
  s = pre ++ m ++ post /\ denote r (last_of None pre) m post.

Definition occurs (r : regex) (s : text) : Prop :=
  exists pre m post, occurs_at r s pre m post.

End ReSpec.

(** ** The stand-alone digit runs of a text, read off the text *)

Module Runs.

(** The maximal runs of word characters, in order of appearance;
    [acc] is the run being read, reversed. *)
Fixpoint word_runs_from (acc s : text) : list text :=
  match s with
  | [] => match acc with [] => [] | _ => [rev acc] end
  | c :: s' =>
      if Chr.is_word c then word_runs_from (c :: acc) s'
      else match acc with
           | [] => word_runs_from [] s'
           | _ => rev acc :: word_runs_from [] s'
           end
  end.

Definition word_runs (s : text) : list text := word_runs_from [] s.

Definition is_account_run (w : text) : bool :=
  forallb Chr.is_digit w && (9 <=? length w) && (length w <=? 18).

(** The runs of 9 to 18 digits that no word character touches. *)
Definition standalone_runs (s : text) : list text :=
  filter is_account_run (word_runs s).

(** The word characters a text starts with, and what follows them. *)
Fixpoint word_prefix (s : text) : text :=
  match s with
  | c :: s' => if Chr.is_word c then c :: word_prefix s' else []
  | [] => []
  end.

Fixpoint after_word (s : text) : text :=
  match s with
  | c :: s' => if Chr.is_word c then after_word s' else s
  | [] => []
  end.

(** The list of a run, when it is not empty. *)
Definition one (w : text) : list text :=
  match w with
  | [] => []
  | _ => [w]
  end.

End Runs.

(** ** The value the two name loops compute, without the exception *)

Module Pure.

(** The text before the first colon, or the whole text. *)
Fixpoint until_colon (s : text) : text :=
  match s with
  | [] => []
  | c :: rest => if Ascii.eqb c (chr ":") then [] else c :: until_colon rest
  end.

(** The text after the first colon, if there is a colon. *)
Fixpoint from_colon (s : text) : option text :=
  match s with
  | [] => None
  | c :: rest => if Ascii.eqb c (chr ":") then Some rest else from_colon rest
  end.

(** [parts[1].strip()] when the line has a colon, [ln.strip()]
    otherwise. *)
Definition name_value_of (ln : text) : text :=
  match from_colon ln with
  | Some v => Py.strip (until_colon v)
  | None => Py.strip ln
  end.

End Pure.

(** ** The shapes of the matches, in plain terms *)

Module Shape.
Import Re ReSpec.

Definition digits (n : nat) (m : text) : Prop :=
  forallb Chr.is_digit m = true /\ length m = n.

(** A run of 9 to 18 digits with no word character on either side. *)
Definition standalone_run (prev : option ascii) (m rest : text) : Prop :=
  word_before prev = false /\ forallb Chr.is_digit m = true
  /\ 9 <= length m <= 18 /\ word_after rest = false.

(** An optional single white-space character. *)
Definition gap (s : text) : Prop :=
  s = [] \/ exists c, s = [c] /\ Chr.is_space c = true.

(** Three groups of four digits, each of the two gaps between them
    empty or one white-space character. *)
Definition aadhaar_shape (m : text) : Prop :=
  exists g1 s1 g2 s2 g3,
    m = g1 ++ s1 ++ g2 ++ s2 ++ g3
    /\ digits 4 g1 /\ gap s1 /\ digits 4 g2 /\ gap s2 /\ digits 4 g3.

(** [+91], then nothing, a hyphen or one white-space character; or
    nothing at all. *)
Definition phone_prefix (p : text) : Prop :=
  p = [] \/ p = str "+91"
  \/ exists c, p = str "+91" ++ [c]
               /\ (c = chr "-" \/ Chr.is_space c = true).

(** Ten digits, the first of them 6 to 9. *)
Definition phone_body (b : text) : Prop :=
  exists c b', b = c :: b' /\ Chr.between 54 57 c = true /\ digits 9 b'.

Definition phone_shape (m : text) : Prop :=
  exists p b, m = p ++ b /\ phone_prefix p /\ phone_body b.

(** A text in which a phone number can be found. *)
Definition has_phone (s : text) : Prop :=
  exists pre m post, s = pre ++ m ++ post /\ phone_shape m.

(** A digit run of the Aadhaar shape that no word character touches. *)
Definition standalone_aadhaar (s pre v post : text) : Prop :=
  s = pre ++ v ++ post /\ aadhaar_shape v
  /\ word_before (last_of None pre) = false /\ word_after post = false.

(** Every match of [r] starts with a character that is no white space. *)
Definition starts_visible (r : regex) : Prop :=
  forall prev m rest, denote r prev m rest ->
    exists c m', m = c :: m' /\ Chr.is_space c = false.

End Shape.

(** ** The statements of the specification, in its words *)

Module Stated.

(** A record with every field null but the file name. *)
Definition null_record (fn : text) : record :=
  {| name := None; email := None; phone := None; pan := None;
     aadhaar := None; address := None; bank_account := None; ifsc := None;
     emergency_contact_name := None; emergency_contact_phone := None;
     source_file_name := fn |}.

(** The text after the first colon of a line, if it has a colon. *)
Fixpoint after_colon (ln : text) : option text :=
  match ln with
  | [] => None
  | c :: rest => if Ascii.eqb c (chr ":") then Some rest else after_colon rest
  end.

(** "If the line contains a colon, the value is the trimmed text after
    the first colon, else the entire trimmed line." *)
Definition labeled_value (ln : text) : text :=
  match after_colon ln with
  | Some v => Py.strip v
  | None => Py.strip ln
  end.

(** "Optional [+91] or [91] prefix, then a 10-digit number starting
    with digit 6-9": [(\+?91)?[6-9]\d{9}]. *)
Definition phone_pattern : Re.regex :=
  Re.cat [Re.Opt (Re.cat [Re.Maybe (Ascii.eqb (chr "+"));
                          Re.Lit (chr "9"); Re.Lit (chr "1")]);
          Re.Cls (Chr.between 54 57); Re.Times Chr.is_digit 9].

Definition phone_of (norm : text) : option text :=
  option_map phone_digits (Re.search phone_pattern norm).

(** "12 digits, optionally grouped as 4-4-4 with single spaces between
    groups." *)
Definition grouped_444 (v : text) : bool :=
  match v with
  | [a1; a2; a3; a4; s1; b1; b2; b3; b4; s2; c1; c2; c3; c4] =>
      forallb Chr.is_digit [a1; a2; a3; a4; b1; b2; b3; b4; c1; c2; c3; c4]
      && Ascii.eqb s1 (chr " ") && Ascii.eqb s2 (chr " ")
  | _ => false
  end.

Definition aadhaar_as_stated (v : text) : bool :=
  (forallb Chr.is_digit v && (length v =? 12)) || grouped_444 v.

(** The first address fragment: the trimmed text after the colon of
    the address line, when there is some. *)
Definition colon_fragment (ln : text) : list text :=
  match after_colon ln with
  | Some v => if nonempty (Py.strip v) then [Py.strip v] else []
  | None => []
  end.


(** The fragments joined with [", "], or null when there are none. *)
Definition joined (fragments : list text) : option text :=
  match fragments with
  | [] => None
  | _ => Some (Py.join (str ", ") fragments)
  end.

End Stated.

(** ** Notions the properties are stated with *)

(** The digit-only form of the Aadhaar field; empty when it is null. *)
Definition digit_form (aadhaar : option text) : text :=
  match aadhaar with
  | Some a => Re.digits_only a
  | None => []
  end.

(** No line passes the test. *)
Definition never (test : text -> bool) (lines : list text) : Prop :=
  Forall (fun ln => test ln = false) lines.

(** A line as [strip] leaves it, and not empty. *)
Definition stripped (ln : text) : Prop := Py.strip ln = ln /\ ln <> [].

(** A text of white space only. *)
Definition blank (s : text) : Prop := Forall (fun c => Chr.is_space c = true) s.

Section Reader.

Variable pdf_pages : list Byte.byte -> result (list (option text)).

(** The reader returns the pages of the file. *)
Definition readable (f : uploaded_file) : Prop :=
  exists pages, pdf_pages (read f) = Ok pages.

(** [row] is the record of [f]: extracted from the text of its pages,
    with its file name, and with every other field null when no page
    has text. *)
Definition row_of (f : uploaded_file) (row : record) : Prop :=
  exists pages,
    pdf_pages (read f) = Ok pages
    /\ extract_fields_rule_based (Py.join [LF] (map page_text pages))
         (file_name f) = Ok row
    /\ source_file_name row = file_name f
    /\ (Forall (fun p => page_text p = []) pages ->
        row = Stated.null_record (file_name f)).

End Reader.


(** ** Notions the further properties are stated with *)

Module Fields.
Import Re ReSpec.

(** [ln] stands in [s], as it is. *)
Definition substring (ln s : text) : Prop :=
  exists pre post, s = pre ++ ln ++ post.

(** The first and the last character are no white space. *)
Definition visible_ends (ln : text) : Prop :=
  (exists c rest, ln = c :: rest /\ Chr.is_space c = false)
  /\ (exists c rest, ln = rest ++ [c] /\ Chr.is_space c = false).

(** No word character stands directly before or after the match. *)
Definition alone (pre post : text) : Prop :=
  word_before (last_of None pre) = false /\ word_after post = false.

(** Five capital letters, four digits, one capital letter. *)
Definition pan_shape (m : text) : Prop :=
  exists l d u,
    m = l ++ d ++ [u]
    /\ forallb Chr.is_AZ l = true /\ length l = 5
    /\ forallb Chr.is_digit d = true /\ length d = 4
    /\ Chr.is_AZ u = true.

Definition AZ09 (c : ascii) : bool := Chr.is_AZ c || Chr.is_digit c.

(** Four capital letters, a zero, six capital letters or digits. *)
Definition ifsc_shape (m : text) : Prop :=
  exists b k,
    m = b ++ chr "0" :: k
    /\ forallb Chr.is_AZ b = true /\ length b = 4
    /\ forallb AZ09 k = true /\ length k = 6.

Definition local_chr (c : ascii) : bool := alnum_ascii c || one_of "._%+-" c.
Definition domain_chr (c : ascii) : bool := alnum_ascii c || one_of ".-" c.
Definition letter (c : ascii) : bool := Chr.is_az c || Chr.is_AZ c.

(** A local part, [@], a domain, a dot and two letters or more. *)
Definition email_shape (m : text) : Prop :=
  exists loc dom tld,
    m = loc ++ chr "@" :: dom ++ chr "." :: tld
    /\ forallb local_chr loc = true /\ loc <> []
    /\ forallb domain_chr dom = true /\ dom <> []
    /\ forallb letter tld = true /\ 2 <= length tld.

(** [v] is found in [s] after [pre], and no text of the shape starts
    further left. *)
Definition leftmost (shape : text -> text -> text -> Prop) (s pre v post : text)
    : Prop :=
  s = pre ++ v ++ post /\ shape pre v post
  /\ forall pre' v' post',
       s = pre' ++ v' ++ post' -> shape pre' v' post' ->
       length pre <= length pre'.

(** The line view of a list of raw lines. *)
Definition trim_view (raw : list text) : list text :=
  map Py.strip (filter (fun ln => negb (Py.text_eqb (Py.strip ln) [])) raw).

(** A line the candidate-name loop stops at: it mentions "name" and
    neither "father" nor "emergency". *)
Definition names_candidate (ln : text) : Prop :=
  mentions "name" ln = true /\ mentions "father" ln = false
  /\ mentions "emergency" ln = false.

End Fields.

(** ** Example inputs *)

Module Examples.

(** Texts of several lines. *)
Definition unlines (ls : list text) : text := Py.join [LF] ls.

Definition aadhaar_then_account : text :=
  unlines [str "Aadhaar: 123456789012"; str "Account: 12345678901"].

Definition two_numbers : text := str "123456789012 210987654321".

Definition grouped_then_plain : text := str "1234 5678 9012 123456789012".

Definition address_block : text :=
  unlines [str "Address: 12 MG Road"; str "Bangalore"; str "Bank Details"].

Definition emergency_block : text :=
  unlines [str "Emergency Contact"; str "Name: John Smith";
           str "Phone: 9876543210"].

Definition two_colons : text :=
  unlines [str "Name: Jane Doe: Senior Engineer"; str "Emergency Contact";
           str "Name: John Smith (Relation: Brother)"].

Definition pdf : text := str "a.pdf".

(** A reader that cannot open an empty file and finds one page without
    text in any other. *)
Definition reader (file_bytes : list Byte.byte) : result (list (option text)) :=
  match file_bytes with
  | [] => Raise PdfError
  | _ => Ok [None]
  end.

Definition batch : list uploaded_file :=
  [mkFile [Byte.x25] (str "1.pdf"); mkFile [] (str "2.pdf");
   mkFile [Byte.x25] (str "3.pdf")].

End Examples.

(** ** The labels, the headers and the digit form, in plain terms *)

Module Plain.

(** [key] stands somewhere in the lowercase form of [ln]. *)
Definition says (key : string) (ln : text) : Prop :=
  exists pre post, Py.lower ln = pre ++ str key ++ post.
Arguments says key%_string ln.


(** The digits of a text, in order, everything else left out. *)
Fixpoint digits_kept (s : text) : text :=
  match s with
  | [] => []
  | c :: rest =>
      if Chr.is_digit c then c :: digits_kept rest else digits_kept rest
  end.

(** The digit-only form of the Aadhaar field; empty when it is null. *)
Definition aadhaar_digits (aadhaar : option text) : text :=
  match aadhaar with
  | Some a => digits_kept a
  | None => []
  end.

End Plain.

(** ** Further example inputs *)

Module Inputs.

(** The Aadhaar number grouped, the same number again ungrouped, and
    an account number of eleven digits. *)
Definition grouped_plain_account : text :=
  Examples.unlines [str "Aadhaar: 1234 5678 9012"; str "Ref: 123456789012";
                    str "Account: 12345678901"].

(** A phone number before the Aadhaar number and the account number. *)
Definition phone_aadhaar_account : text :=
  Examples.unlines [str "Phone: 9876543210"; str "Aadhaar: 123456789012";
                    str "Account: 12345678901"].


(** An emergency block whose phone has the prefix 91 without plus. *)
Definition emergency_bare_prefix : text :=
  Examples.unlines [str "Emergency Contact"; str "Phone: 919876543210"].

(** An emergency block whose phone has the prefix +91 and a hyphen. *)
Definition emergency_plus_prefix : text :=
  Examples.unlines [str "EMERGENCY CONTACT"; str "Contact Name: John Smith";
                    str "Phone: +91-9876543210"].

End Inputs.

(** ** More example inputs *)

Module MoreExamples.

(** A reader that finds two pages in every file: one with two lines
    of text, one without text. *)
Definition two_pages (file_bytes : list Byte.byte)
    : result (list (option text)) :=
  Ok [Some (str "Name: Jane Doe" ++ [CR; LF] ++ str "Pune"); None].

End MoreExamples.

(** * Properties *)

(** ** The matcher against the denotation *)

Module ReFacts.
Import Re ReSpec.

Lemma last_of_app prev a b :
  last_of prev (a ++ b) = last_of (last_of prev a) b.
Proof.
  revert prev; induction a as [|c a IH]; intros prev; simpl; auto.
Qed.

Lemma within_pred hi n :
  within hi (S n) -> within (option_map pred hi) n.
Proof. destruct hi as [h|]; simpl; lia. Qed.

Lemma within_room hi n : within hi (S n) -> room hi = true.
Proof.
  destruct hi as [h|]; simpl; auto.
  intros H; apply Nat.ltb_lt; lia.
Qed.

Lemma room_within hi n :
  room hi = true -> within (option_map pred hi) n -> within hi (S n).
Proof.
  destruct hi as [h|]; simpl; auto.
  intros H; apply Nat.ltb_lt in H; lia.
Qed.

Lemma rep_sound cls s : forall lo hi prev k x,
  rep cls lo hi prev s k = Some x ->
  exists m rest,
    s = m ++ rest /\ forallb cls m = true /\ lo <= length m
    /\ within hi (length m) /\ k (last_of prev m) rest = Some x.
Proof.
  induction s as [|c s IH]; intros lo hi prev k x H; simpl in H.
  - destruct (Nat.eqb_spec lo 0) as [->|]; [|discriminate].
    exists [], []; simpl; repeat split; auto.
    destruct hi; simpl; lia.
  - assert (Hstop : (if lo =? 0 then k prev (c :: s) else None) = Some x ->
              exists m rest, c :: s = m ++ rest /\ forallb cls m = true
                /\ lo <= length m /\ within hi (length m)
                /\ k (last_of prev m) rest = Some x).
    { intros Hs. destruct (Nat.eqb_spec lo 0) as [->|]; [|discriminate].
      exists [], (c :: s); simpl; repeat split; auto.
      destruct hi; simpl; lia. }
    destruct (cls c && room hi) eqn:E; [|auto].
    apply andb_prop in E as [Ec Er].
    destruct (rep cls (pred lo) (option_map pred hi) (Some c) s k) eqn:R;
      [|auto].
    inversion H; subst t.
    apply IH in R as (m & rest & -> & Hm & Hlo & Hhi & Hk).
    exists (c :: m), rest; simpl; rewrite Ec, Hm.
    repeat split; auto; [lia|].
    apply room_within; auto.
Qed.

Lemma rep_complete cls m : forall lo hi prev rest k x,
  forallb cls m = true -> lo <= length m -> within hi (length m) ->
  k (last_of prev m) rest = Some x ->
  exists y, rep cls lo hi prev (m ++ rest) k = Some y.
Proof.
  induction m as [|c m IH]; intros lo hi prev rest k x Hm Hlo Hhi Hk;
    simpl in *.
  - assert (lo = 0) as -> by lia.
    destruct rest as [|c s]; simpl; [eauto|].
    destruct (cls c && room hi); [|eauto].
    destruct (rep cls 0 (option_map pred hi) (Some c) s k); eauto.
  - apply andb_prop in Hm as [Hc Hm].
    rewrite Hc, (within_room _ _ Hhi); simpl.
    destruct (IH (pred lo) (option_map pred hi) (Some c) rest k x)
      as [y Hy]; auto; [lia|apply within_pred; auto|].
    rewrite Hy; eauto.
Qed.

Theorem exec_sound r : forall prev s k x,
  exec r prev s k = Some x ->
  exists m rest,
    s = m ++ rest /\ denote r prev m rest
    /\ k (last_of prev m) rest = Some x.
Proof.
  induction r as [|cls lo hi|a IHa b IHb|a IHa]; intros prev s k x H;
    simpl in H.
  - destruct (at_boundary prev s) eqn:E; [|discriminate].
    exists [], s; simpl; auto.
  - apply rep_sound in H as (m & rest & -> & Hm & Hlo & Hhi & Hk).
    exists m, rest; simpl; auto.
  - apply IHa in H as (m1 & s1 & -> & Ha & H).
    apply IHb in H as (m2 & rest & -> & Hb & Hk).
    exists (m1 ++ m2), rest; rewrite <- app_assoc, last_of_app.
    repeat split; auto. simpl; eauto.
  - destruct (exec a prev s k) eqn:E.
    + inversion H; subst t.
      apply IHa in E as (m & rest & -> & Ha & Hk).
      exists m, rest; simpl; auto.
    + exists [], s; simpl; auto.
Qed.

Theorem exec_complete r : forall prev m rest k x,
  denote r prev m rest ->
  k (last_of prev m) rest = Some x ->
  exists y, exec r prev (m ++ rest) k = Some y.
Proof.
  induction r as [|cls lo hi|a IHa b IHb|a IHa]; intros prev m rest k x D Hk;
    simpl in D |- *.
  - destruct D as [-> D]; simpl in *; rewrite D; eauto.
  - destruct D as (Hm & Hlo & Hhi); eapply rep_complete; eauto.
  - destruct D as (m1 & m2 & -> & Da & Db).
    rewrite last_of_app in Hk.
    destruct (IHb _ _ _ _ _ Db Hk) as [y Hy].
    rewrite <- app_assoc.
    eapply IHa; eauto.
  - destruct D as [-> | D].
    + simpl in *. destruct (exec a prev rest k); eauto.
    + destruct (IHa _ _ _ _ _ D Hk) as [y Hy]; rewrite Hy; eauto.
Qed.

Lemma group0_app m rest : group0 (m ++ rest) rest = m.
Proof.
  unfold group0. rewrite length_app.
  replace (length m + length rest - length rest) with (length m) by lia.
  rewrite firstn_app, firstn_all, Nat.sub_diag; simpl.
  apply app_nil_r.
Qed.

Lemma match_at_sound r prev s rest :
  match_at r prev s = Some rest ->
  exists m, s = m ++ rest /\ denote r prev m rest.
Proof.
  intros H; apply exec_sound in H as (m & rest' & -> & D & Hk).
  inversion Hk; subst; eauto.
Qed.

Lemma match_at_hit r prev s rest :
  match_at r prev s = Some rest ->
  exists m, s = m ++ rest /\ denote r prev m rest /\ group0 s rest = m.
Proof.
  intros H; apply match_at_sound in H as (m & -> & D).
  exists m; repeat split; auto using group0_app.
Qed.

Lemma match_at_complete r prev m rest :
  denote r prev m rest -> exists rest', match_at r prev (m ++ rest) = Some rest'.
Proof.
  intros D; eapply exec_complete; eauto.
Qed.

Lemma match_at_none r prev s :
  match_at r prev s = None ->
  forall m rest, s = m ++ rest -> ~ denote r prev m rest.
Proof.
  intros H m rest -> D.
  destruct (match_at_complete _ _ _ _ D) as [y Hy]; congruence.
Qed.

(** [search] returns a match of the pattern, at the leftmost position
    where the pattern matches at all. *)
Lemma search_from_some r s : forall prev m,
  search_from r prev s = Some m ->
  exists pre post,
    s = pre ++ m ++ post /\ denote r (last_of prev pre) m post
    /\ forall p m' q, s = p ++ m' ++ q -> denote r (last_of prev p) m' q ->
                      length pre <= length p.
Proof.
  induction s as [|c s IH]; intros prev m H; simpl in H.
  - destruct (match_at r prev []) eqn:E; [|discriminate].
    inversion H; subst m; clear H.
    apply match_at_hit in E as (m & Hm & D & ->).
    exists [], t; simpl; repeat split; auto. intros; lia.
  - destruct (match_at r prev (c :: s)) eqn:E.
    + inversion H; subst m; clear H.
      apply match_at_hit in E as (m & Hm & D & ->).
      exists [], t; simpl; repeat split; auto. intros; lia.
    + apply IH in H as (pre & post & -> & D & Hmin).
      exists (c :: pre), post; simpl; repeat split; auto.
      intros p m' q Hs D'.
      destruct p as [|c' p]; simpl in *.
      * exfalso; eapply match_at_none; eauto.
      * inversion Hs; subst c'.
        apply le_n_S; eapply Hmin; eauto.
Qed.

Lemma search_from_none r s : forall prev,
  search_from r prev s = None ->
  forall p m q, s = p ++ m ++ q -> ~ denote r (last_of prev p) m q.
Proof.
  induction s as [|c s IH]; intros prev H p m q Hs D; simpl in H.
  - destruct (match_at r prev []) eqn:E; [discriminate|].
    destruct p; [|discriminate]; simpl in *.
    eapply match_at_none; eauto.
  - destruct (match_at r prev (c :: s)) eqn:E; [discriminate|].
    destruct p as [|c' p]; simpl in *.
    + eapply match_at_none; eauto.
    + inversion Hs; subst c'. eapply IH; eauto.
Qed.

Theorem search_some r s m :
  search r s = Some m ->
  exists pre post,
    occurs_at r s pre m post
    /\ forall p m' q, occurs_at r s p m' q -> length pre <= length p.
Proof.
  intros H; apply search_from_some in H as (pre & post & Hs & D & Hmin).
  exists pre, post; split; [split; auto|].
  intros p m' q [Hp Dp]; eauto.
Qed.

Theorem search_none r s : search r s = None <-> ~ occurs r s.
Proof.
  split.
  - intros H (pre & m & post & Hs & D).
    eapply search_from_none; eauto.
  - intros H; destruct (search r s) eqn:E; auto.
    apply search_some in E as (pre & post & Ho & _).
    exfalso; apply H; exists pre, t, post; auto.
Qed.

End ReFacts.

(** ** The shapes the six patterns match *)

Module ShapeFacts.
Import Re ReSpec ReFacts Shape.

Lemma digit_word c : Chr.is_digit c = true -> Chr.is_word c = true.
Proof. intros H; unfold Chr.is_word; rewrite H; reflexivity. Qed.

Lemma AZ_word c : Chr.is_AZ c = true -> Chr.is_word c = true.
Proof.
  intros H; unfold Chr.is_word; rewrite H.
  rewrite orb_true_r; reflexivity.
Qed.

Lemma space_not_word c : Chr.is_space c = true -> Chr.is_word c = false.
Proof.
  destruct c as [[] [] [] [] [] [] [] []]; vm_compute; congruence.
Qed.

Lemma space_not_digit c : Chr.is_space c = true -> Chr.is_digit c = false.
Proof.
  intros H; apply space_not_word in H.
  destruct (Chr.is_digit c) eqn:E; auto.
  apply digit_word in E; congruence.
Qed.

Lemma six_nine_digit c : Chr.between 54 57 c = true -> Chr.is_digit c = true.
Proof.
  unfold Chr.is_digit, Chr.between; intros H.
  apply andb_prop in H as [H1 H2].
  apply Nat.leb_le in H1, H2.
  apply andb_true_intro; split; apply Nat.leb_le; lia.
Qed.

Lemma word_after_app c m rest : word_after ((c :: m) ++ rest) = Chr.is_word c.
Proof. reflexivity. Qed.

Lemma last_of_forallb cls m : forall prev,
  m <> [] -> forallb cls m = true ->
  exists c, last_of prev m = Some c /\ cls c = true.
Proof.
  induction m as [|c m IH]; intros prev Hne Hm; [congruence|].
  simpl in *. apply andb_prop in Hm as [Hc Hm].
  destruct m as [|d m]; [simpl; eauto|].
  apply IH; [discriminate|auto].
Qed.

Lemma last_of_word cls m prev :
  (forall c, cls c = true -> Chr.is_word c = true) ->
  m <> [] -> forallb cls m = true ->
  word_before (last_of prev m) = true.
Proof.
  intros Hw Hne Hm.
  destruct (last_of_forallb cls m prev Hne Hm) as (c & -> & Hc).
  simpl; auto.
Qed.

Lemma denote_Times cls n prev m rest :
  denote (Times cls n) prev m rest <->
  forallb cls m = true /\ length m = n.
Proof. unfold Times; simpl; intuition lia. Qed.

Lemma denote_Cls cls prev m rest :
  denote (Cls cls) prev m rest <-> exists c, m = [c] /\ cls c = true.
Proof.
  unfold Cls; simpl; split.
  - intros (Hm & Hlo & Hhi).
    destruct m as [|c [|d m]]; simpl in *; try lia.
    exists c; rewrite andb_true_r in Hm; auto.
  - intros (c & -> & Hc); simpl; rewrite Hc; auto.
Qed.

Lemma denote_Lit c prev m rest : denote (Lit c) prev m rest <-> m = [c].
Proof.
  unfold Lit; rewrite denote_Cls; split.
  - intros (d & -> & E); apply Ascii.eqb_eq in E; subst; auto.
  - intros ->; exists c; split; auto; apply Ascii.eqb_refl.
Qed.

Lemma denote_Maybe cls prev m rest :
  denote (Maybe cls) prev m rest <->
  m = [] \/ exists c, m = [c] /\ cls c = true.
Proof.
  unfold Maybe; simpl; split.
  - intros (Hm & Hlo & Hhi).
    destruct m as [|c [|d m]]; simpl in *; auto; try lia.
    right; exists c; rewrite andb_true_r in Hm; auto.
  - intros [-> | (c & -> & Hc)]; simpl; [|rewrite Hc]; auto.
Qed.

(** [\b\d{9,18}\b] matches exactly the stand-alone runs. *)
Theorem account_denote prev m rest :
  denote ACCOUNT_REGEX prev m rest <-> standalone_run prev m rest.
Proof.
  unfold ACCOUNT_REGEX, standalone_run; cbn [cat denote]; split.
  - intros (m1 & m2 & -> & [-> B1] & m3 & m4 & -> & (Hd & Hlo & Hhi) & -> & B2).
    simpl in *. rewrite app_nil_r in *.
    destruct m3 as [|c m3]; [simpl in Hlo; lia|].
    assert (Hw : word_before (last_of prev (c :: m3)) = true).
    { apply last_of_word with (cls := Chr.is_digit);
        auto using digit_word; discriminate. }
    unfold at_boundary in *. rewrite Hw in B2.
    rewrite word_after_app in B1.
    simpl in Hd. apply andb_prop in Hd as [Hc Hd].
    rewrite (digit_word _ Hc) in B1.
    destruct (word_before prev), (word_after rest); simpl in *;
      try discriminate.
    rewrite Hc, Hd; repeat split; auto.
  - intros (Hp & Hd & [Hlo Hhi] & Hr).
    destruct m as [|c m]; [simpl in Hlo; lia|].
    exists [], (c :: m); split; [reflexivity|].
    assert (Hc : Chr.is_word c = true).
    { simpl in Hd; apply andb_prop in Hd as [Hc _]; auto using digit_word. }
    split.
    { split; auto. unfold at_boundary. rewrite word_after_app, Hp, Hc; auto. }
    exists (c :: m), []; rewrite app_nil_r; repeat split; auto.
    unfold at_boundary; cbn [last_of].
    change (last_of (Some c) m) with (last_of None (c :: m)).
    rewrite (last_of_word Chr.is_digit); auto using digit_word; [|discriminate].
    rewrite Hr; reflexivity.
Qed.

Lemma digits_word_after n m tl :
  digits (S n) m -> word_after (m ++ tl) = true.
Proof.
  intros [Hd Hl]. destruct m as [|c m]; [discriminate|].
  simpl in *. apply andb_prop in Hd as [Hc _]; auto using digit_word.
Qed.

Lemma digits_word_before n m prev :
  digits (S n) m -> word_before (last_of prev m) = true.
Proof.
  intros [Hd Hl]. apply last_of_word with (cls := Chr.is_digit);
    auto using digit_word.
  intros ->; discriminate.
Qed.

(** [\b\d{4}\s?\d{4}\s?\d{4}\b] *)
Theorem aadhaar_denote prev m rest :
  denote AADHAAR_REGEX prev m rest <->
  aadhaar_shape m /\ word_before prev = false /\ word_after rest = false.
Proof.
  unfold AADHAAR_REGEX, aadhaar_shape; cbn [cat denote]; split.
  - intros (m1 & m2 & -> & [-> B1] & g1 & x2 & -> & G1 & s1 & x3 & -> & S1
            & g2 & x4 & -> & G2 & s2 & x5 & -> & S2 & g3 & x6 & -> & G3
            & -> & B2).
    apply denote_Times in G1, G2, G3. apply denote_Maybe in S1, S2.
    rewrite app_nil_r in *. cbn [app last_of] in *.
    unfold at_boundary in *.
    rewrite (digits_word_before _ _ _ G3) in B2.
    rewrite <- app_assoc, (digits_word_after _ _ _ G1) in B1.
    destruct (word_before prev), (word_after rest); simpl in *;
      try discriminate.
    split; auto. exists g1, s1, g2, s2, g3; unfold digits, gap; tauto.
  - intros ((g1 & s1 & g2 & s2 & g3 & -> & G1 & S1 & G2 & S2 & G3) & Hp & Hr).
    exists [], (g1 ++ s1 ++ g2 ++ s2 ++ g3); split; [reflexivity|].
    split.
    { split; auto. unfold at_boundary.
      rewrite <- app_assoc, (digits_word_after _ _ _ G1), Hp; reflexivity. }
    cbn [last_of].
    exists g1, (s1 ++ g2 ++ s2 ++ g3); split; auto.
    split; [apply denote_Times; auto|].
    exists s1, (g2 ++ s2 ++ g3); split; auto.
    split; [apply denote_Maybe; auto|].
    exists g2, (s2 ++ g3); split; auto.
    split; [apply denote_Times; auto|].
    exists s2, g3; split; auto.
    split; [apply denote_Maybe; auto|].
    exists g3, []; rewrite app_nil_r; split; auto.
    split; [apply denote_Times; auto|].
    split; auto. unfold at_boundary.
    rewrite (digits_word_before _ _ _ G3), Hr; reflexivity.
Qed.

(** [(\+91[-\s]?)?[6-9]\d{9}] *)
Theorem phone_denote prev m rest :
  denote PHONE_REGEX prev m rest <-> phone_shape m.
Proof.
  unfold PHONE_REGEX, phone_shape, phone_body; cbn [cat denote]; split.
  - intros (p & b & -> & P & c & b' & -> & C & B).
    apply denote_Cls in C as (d & -> & Hd). apply denote_Times in B.
    exists p, (d :: b'); repeat split; eauto.
    destruct P as [-> | (x1 & y1 & -> & L1 & x2 & y2 & -> & L2
                          & x3 & y3 & -> & L3 & M)]; [left; auto|].
    apply denote_Lit in L1, L2, L3; subst.
    apply denote_Maybe in M as [-> | (e & -> & He)].
    + right; left; reflexivity.
    + right; right; exists e; split; [reflexivity|].
      apply orb_prop in He as [He | He]; auto.
      left. unfold one_of in He; simpl in He.
      rewrite orb_false_r in He. apply Ascii.eqb_eq in He; auto.
  - intros (p & b & -> & P & c & b' & -> & Hc & B).
    exists p, (c :: b'); split; auto. split.
    + destruct P as [-> | [-> | (e & -> & He)]]; [left; auto| |];
        right.
      * exists [chr "+"], (str "91"); split; auto.
        split; [apply denote_Lit; auto|].
        exists [chr "9"], (str "1"); split; auto.
        split; [apply denote_Lit; auto|].
        exists [chr "1"], []; split; auto.
        split; [apply denote_Lit; auto|].
        apply denote_Maybe; auto.
      * exists [chr "+"], (str "91" ++ [e]); split; auto.
        split; [apply denote_Lit; auto|].
        exists [chr "9"], (str "1" ++ [e]); split; auto.
        split; [apply denote_Lit; auto|].
        exists [chr "1"], [e]; split; auto.
        split; [apply denote_Lit; auto|].
        apply denote_Maybe; right; exists e; split; auto.
        destruct He as [-> | He]; [reflexivity|].
        rewrite He; apply orb_true_r.
    + exists [c], b'; split; auto.
      split; [apply denote_Cls; eauto|apply denote_Times; auto].
Qed.

Lemma filter_all {A} (f : A -> bool) (l : list A) :
  forallb f l = true -> filter f l = l.
Proof.
  induction l as [|x l IH]; simpl; auto.
  intros H; apply andb_prop in H as [Hx Hl]; rewrite Hx, IH; auto.
Qed.

Lemma phone_body_digits b : phone_body b -> digits 10 b.
Proof.
  intros (c & b' & -> & Hc & Hd & Hl); split; simpl.
  - rewrite (six_nine_digit _ Hc), Hd; reflexivity.
  - rewrite Hl; reflexivity.
Qed.

(** Stripping the non-digits of a match and keeping the last ten
    digits leaves the ten-digit number, without the prefix. *)
Lemma phone_digits_body p b :
  phone_prefix p -> phone_body b -> phone_digits (p ++ b) = b.
Proof.
  intros P B. apply phone_body_digits in B as [Hd Hl].
  unfold phone_digits, digits_only, Py.last_n.
  rewrite filter_app, (filter_all _ _ Hd).
  destruct P as [-> | [-> | (e & -> & He)]].
  - simpl. rewrite Hl; reflexivity.
  - simpl. rewrite Hl; reflexivity.
  - assert (E : Chr.is_digit e = false).
    { destruct He as [-> | He]; [reflexivity|auto using space_not_digit]. }
    simpl. rewrite E; simpl. rewrite Hl; reflexivity.
Qed.

Lemma aadhaar_shape_digits m :
  aadhaar_shape m -> digits 12 (digits_only m).
Proof.
  assert (G : forall s, gap s -> digits_only s = []).
  { intros s [-> | (c & -> & Hc)]; simpl; auto.
    rewrite (space_not_digit _ Hc); auto. }
  intros (g1 & s1 & g2 & s2 & g3 & -> & [D1 L1] & S1 & [D2 L2] & S2 & [D3 L3]).
  unfold digits_only in *; rewrite !filter_app.
  rewrite (G _ S1), (G _ S2), !(filter_all _ _ D1), !(filter_all _ _ D2),
    !(filter_all _ _ D3); simpl.
  split.
  - rewrite !forallb_app, D1, D2, D3; reflexivity.
  - rewrite !length_app; lia.
Qed.

End ShapeFacts.

(** ** [finditer] with the account pattern lists the stand-alone runs *)

Module RunFacts.
Import Re ReSpec ReFacts Shape ShapeFacts Runs.

Lemma word_split s : s = word_prefix s ++ after_word s.
Proof.
  induction s as [|c s IH]; simpl; auto.
  destruct (Chr.is_word c); simpl; congruence.
Qed.

Lemma word_prefix_all s : forallb Chr.is_word (word_prefix s) = true.
Proof.
  induction s as [|c s IH]; simpl; auto.
  destruct (Chr.is_word c) eqn:E; simpl; auto. rewrite E; auto.
Qed.

Lemma after_word_stop s : word_after (after_word s) = false.
Proof.
  induction s as [|c s IH]; simpl; auto.
  destruct (Chr.is_word c) eqn:E; simpl; auto.
Qed.

Lemma after_word_length s : length (after_word s) <= length s.
Proof.
  induction s as [|c s IH]; simpl; auto.
  destruct (Chr.is_word c); simpl; lia.
Qed.

(** A text splits in one way only into word characters followed by a
    text that starts with none. *)
Lemma word_split_unique m : forall s rest,
  s = m ++ rest -> forallb Chr.is_word m = true -> word_after rest = false ->
  m = word_prefix s /\ rest = after_word s.
Proof.
  induction m as [|c m IH]; intros s rest -> Hm Hr; simpl in *.
  - destruct rest as [|d rest]; simpl in *; auto. rewrite Hr; auto.
  - apply andb_prop in Hm as [Hc Hm]. rewrite Hc.
    destruct (IH (m ++ rest) rest eq_refl Hm Hr) as [<- <-]; auto.
Qed.

Lemma digits_are_words m :
  forallb Chr.is_digit m = true -> forallb Chr.is_word m = true.
Proof.
  induction m as [|c m IH]; simpl; auto.
  intros H; apply andb_prop in H as [Hc Hm].
  rewrite (digit_word _ Hc), IH; auto.
Qed.

Lemma one_rev acc :
  match acc with [] => [] | _ => [rev acc] end = one (rev acc).
Proof.
  destruct acc as [|a acc]; simpl; auto.
  destruct (rev acc ++ [a]) eqn:E; auto.
  apply app_eq_nil in E as [_ E]; discriminate.
Qed.

Lemma word_runs_from_unfold s : forall acc,
  word_runs_from acc s =
  one (rev acc ++ word_prefix s)
  ++ match after_word s with
     | [] => []
     | _ :: t => word_runs_from [] t
     end.
Proof.
  induction s as [|c s IH]; intros acc; cbn [word_runs_from word_prefix after_word].
  - rewrite !app_nil_r. apply one_rev.
  - destruct (Chr.is_word c) eqn:E.
    + rewrite IH; simpl. rewrite <- app_assoc; reflexivity.
    + rewrite app_nil_r, <- one_rev. destruct acc; reflexivity.
Qed.

Lemma is_account_run_spec w :
  is_account_run w = true <->
  forallb Chr.is_digit w = true /\ 9 <= length w <= 18.
Proof.
  unfold is_account_run. rewrite !andb_true_iff, !Nat.leb_le. tauto.
Qed.

(** No match starts where the position is not at the start of a word. *)
Lemma account_needs_word_start prev s :
  word_before prev = true \/ word_after s = false ->
  match_at ACCOUNT_REGEX prev s = None.
Proof.
  intros H. destruct (match_at ACCOUNT_REGEX prev s) eqn:E; auto.
  apply match_at_sound in E as (m & -> & D).
  apply account_denote in D as (Hp & Hd & [Hlo _] & _).
  destruct m as [|c m]; [simpl in Hlo; lia|].
  simpl in Hd. apply andb_prop in Hd as [Hc _].
  rewrite word_after_app, (digit_word _ Hc), Hp in H.
  destruct H; discriminate.
Qed.

(** At the start of a word the match is the whole word, when it is a
    run of 9 to 18 digits, and nothing otherwise. *)
Lemma account_at_word_start prev s :
  word_before prev = false ->
  match_at ACCOUNT_REGEX prev s =
  if is_account_run (word_prefix s) then Some (after_word s) else None.
Proof.
  intros Hp.
  assert (U : forall rest, match_at ACCOUNT_REGEX prev s = Some rest ->
                rest = after_word s /\ is_account_run (word_prefix s) = true).
  { intros rest E. apply match_at_sound in E as (m & Hs & D).
    apply account_denote in D as (_ & Hd & Hlen & Hr).
    destruct (word_split_unique m _ _ Hs (digits_are_words _ Hd) Hr) as [<- <-].
    split; auto. apply is_account_run_spec; auto. }
  destruct (is_account_run (word_prefix s)) eqn:R.
  - apply is_account_run_spec in R as [Hd Hlen].
    destruct (match_at_complete ACCOUNT_REGEX prev (word_prefix s)
                (after_word s)) as [rest E].
    { apply account_denote; repeat split; auto; try lia.
      apply after_word_stop. }
    rewrite <- word_split in E. rewrite E.
    destruct (U _ E) as [-> _]; auto.
  - destruct (match_at ACCOUNT_REGEX prev s) eqn:E; auto.
    destruct (U _ eq_refl) as [_ R']; discriminate.
Qed.

Lemma finditer_skip r m : forall prev t,
  finditer_from r prev (m ++ t) (length m) =
  finditer_from r (last_of prev m) t 0.
Proof.
  induction m as [|c m IH]; intros prev t; simpl; auto.
Qed.

(** Inside a word nothing matches: the scan moves to its end. *)
Lemma finditer_inside_word s : forall prev,
  word_before prev = true ->
  finditer_from ACCOUNT_REGEX prev s 0 =
  finditer_from ACCOUNT_REGEX (last_of prev (word_prefix s)) (after_word s) 0.
Proof.
  induction s as [|c s IH]; intros prev Hp; [reflexivity|].
  cbn [word_prefix after_word].
  destruct (Chr.is_word c) eqn:E; [|reflexivity].
  cbn [finditer_from last_of].
  rewrite account_needs_word_start by auto.
  apply IH; simpl; auto.
Qed.

Lemma finditer_runs n : forall s prev,
  length s <= n ->
  word_before prev = false \/ word_after s = false ->
  finditer_from ACCOUNT_REGEX prev s 0 = standalone_runs s.
Proof.
  unfold standalone_runs, word_runs.
  induction n as [|n IH]; intros s prev Hn Hinv.
  - destruct s; [|simpl in Hn; lia].
    simpl. rewrite account_needs_word_start; auto.
  - destruct s as [|c s].
    { simpl. rewrite account_needs_word_start; auto. }
    rewrite word_runs_from_unfold.
    destruct (Chr.is_word c) eqn:E.
    + destruct Hinv as [Hp | Ha]; [|simpl in Ha; congruence].
      assert (Wc : word_prefix (c :: s) = c :: word_prefix s)
        by (simpl; rewrite E; auto).
      assert (Ac : after_word (c :: s) = after_word s)
        by (simpl; rewrite E; auto).
      cbn [finditer_from]. rewrite account_at_word_start by auto.
      rewrite Wc, Ac. cbn [rev app one filter].
      pose proof (after_word_stop s) as Hstop.
      pose proof (after_word_length s) as Hlen.
      pose proof (word_split s) as Hs.
      pose proof (word_prefix_all s) as Hall.
      remember (word_prefix s) as w eqn:Hw.
      remember (after_word s) as t eqn:Ht.
      clear Hw Ht.
      assert (Hnext :
        finditer_from ACCOUNT_REGEX (last_of (Some c) w) t 0 =
        filter is_account_run
          match t with
          | [] => []
          | _ :: t' => word_runs_from [] t'
          end).
      { destruct t as [|d t'].
        - simpl. rewrite account_needs_word_start; auto.
        - simpl in Hstop. cbn [finditer_from].
          rewrite account_needs_word_start by (right; simpl; auto).
          apply IH; [simpl in *; lia|left; simpl; auto]. }
      rewrite <- Hnext.
      destruct (is_account_run (c :: w)) eqn:R.
      * subst s. f_equal.
        { apply (group0_app (c :: w) t). }
        cbn [length]. rewrite length_app.
        replace (pred (S (length w + length t) - length t))
          with (length w) by lia.
        apply finditer_skip.
      * subst s. rewrite (finditer_inside_word (w ++ t) (Some c))
          by (simpl; auto).
        destruct (word_split_unique w (w ++ t) t eq_refl Hall Hstop)
          as [<- <-].
        reflexivity.
    + cbn [finditer_from].
      rewrite account_needs_word_start by (right; simpl; auto).
      simpl; rewrite E; simpl.
      apply IH; [simpl in Hn; lia|left; simpl; auto].
Qed.

(** The matches [finditer] yields for the account pattern are the
    stand-alone digit runs of the text, in order. *)
Theorem finditer_account s :
  finditer ACCOUNT_REGEX s = standalone_runs s.
Proof.
  apply finditer_runs with (n := length s); auto.
Qed.

(** Every match that [finditer] yields is an occurrence of the
    pattern in the text. *)
Lemma finditer_from_occurs r s : forall prev skip d,
  In d (finditer_from r prev s skip) ->
  exists pre post, s = pre ++ d ++ post
                   /\ denote r (last_of prev pre) d post.
Proof.
  induction s as [|c s IH]; intros prev skip d H.
  - destruct skip; simpl in H; [|contradiction].
    destruct (match_at r prev []) eqn:E; [|contradiction].
    destruct H as [<- | []].
    apply match_at_hit in E as (m & Hm & D & ->).
    exists [], t; auto.
  - destruct skip; cbn [finditer_from] in H.
    + destruct (match_at r prev (c :: s)) eqn:E.
      * destruct H as [<- | H].
        { apply match_at_hit in E as (m & Hm & D & ->). exists [], t; auto. }
        apply IH in H as (pre & post & -> & D).
        exists (c :: pre), post; auto.
      * apply IH in H as (pre & post & -> & D).
        exists (c :: pre), post; auto.
    + apply IH in H as (pre & post & -> & D).
      exists (c :: pre), post; auto.
Qed.

Lemma finditer_occurs r s d :
  In d (finditer r s) -> exists pre post, occurs_at r s pre d post.
Proof.
  intros H; apply finditer_from_occurs in H as (pre & post & Hs & D).
  exists pre, post; split; auto.
Qed.

End RunFacts.

(** ** Facts about the string operations *)

Module PyFacts.
Import Py.

Lemma text_eqb_eq a : forall b, text_eqb a b = true <-> a = b.
Proof.
  induction a as [|x a IH]; intros [|y b]; simpl; split; intros H;
    try discriminate; auto.
  - apply andb_prop in H as [H1 H2].
    apply Ascii.eqb_eq in H1; apply IH in H2; congruence.
  - inversion H; subst. rewrite Ascii.eqb_refl; simpl. apply IH; auto.
Qed.

Lemma text_eqb_refl a : text_eqb a a = true.
Proof. apply text_eqb_eq; auto. Qed.

Lemma text_eqb_neq a b : text_eqb a b = false <-> a <> b.
Proof.
  split.
  - intros H E; apply text_eqb_eq in E; congruence.
  - intros H; destruct (text_eqb a b) eqn:E; auto.
    apply text_eqb_eq in E; contradiction.
Qed.

Lemma lstrip_suffix s : exists x, s = x ++ lstrip s.
Proof.
  induction s as [|c s [x IH]]; [exists []; auto|]; simpl.
  destruct (Chr.is_space c).
  - exists (c :: x); simpl; congruence.
  - exists []; auto.
Qed.

Lemma lstrip_head s c t : lstrip s = c :: t -> Chr.is_space c = false.
Proof.
  induction s as [|d s IH]; simpl; [discriminate|].
  destruct (Chr.is_space d) eqn:E; auto.
  intros H; inversion H; subst; auto.
Qed.

Lemma lstrip_fixed c t : Chr.is_space c = false -> lstrip (c :: t) = c :: t.
Proof. intros H; simpl; rewrite H; auto. Qed.

Lemma lstrip_idem s : lstrip (lstrip s) = lstrip s.
Proof.
  destruct (lstrip s) as [|c t] eqn:E; auto.
  apply lstrip_fixed; eapply lstrip_head; eauto.
Qed.

(** [strip] leaves a stripped text as it is. *)
Lemma strip_idem s : strip (strip s) = strip s.
Proof.
  unfold strip, rstrip.
  set (u := lstrip s).
  destruct (lstrip (rev u)) as [|c r] eqn:R; [reflexivity|].
  assert (Hfix : lstrip (c :: r) = c :: r)
    by (apply lstrip_fixed; eapply lstrip_head; eauto).
  destruct (lstrip_suffix (rev u)) as [x Hx]. rewrite R in Hx.
  assert (Hu : u = rev (c :: r) ++ rev x).
  { rewrite <- rev_app_distr, <- Hx, rev_involutive; auto. }
  destruct (rev (c :: r)) as [|d v] eqn:V.
  { apply (f_equal (@length _)) in V. rewrite length_rev in V.
    discriminate. }
  assert (Hd : Chr.is_space d = false).
  { apply (lstrip_head s d (v ++ rev x)). fold u. rewrite Hu; auto. }
  rewrite (lstrip_fixed _ _ Hd), <- V, rev_involutive, Hfix; auto.
Qed.

Lemma split_from_no_sep (sep : ascii) (s : text) : forall acc,
  ~ In sep s -> split_from sep acc s = [rev acc ++ s].
Proof.
  induction s as [|c s IH]; intros acc H; simpl.
  - rewrite app_nil_r; auto.
  - destruct (Ascii.eqb_spec c sep) as [->|N].
    + exfalso; apply H; left; auto.
    + rewrite IH; [|intros K; apply H; right; auto].
      simpl; rewrite <- app_assoc; auto.
Qed.

Lemma split_from_at_sep (sep : ascii) (a : text) : forall acc b,
  ~ In sep a ->
  split_from sep acc (a ++ sep :: b) = (rev acc ++ a) :: split_from sep [] b.
Proof.
  induction a as [|c a IH]; intros acc b H; simpl.
  - rewrite Ascii.eqb_refl, app_nil_r; auto.
  - destruct (Ascii.eqb_spec c sep) as [->|N].
    + exfalso; apply H; left; auto.
    + rewrite IH; [|intros K; apply H; right; auto].
      simpl; rewrite <- app_assoc; auto.
Qed.

Lemma split_no_sep (sep : ascii) (s : text) : ~ In sep s -> split sep s = [s].
Proof. apply split_from_no_sep with (acc := []). Qed.

Lemma split_at_sep (sep : ascii) (a b : text) :
  ~ In sep a -> split sep (a ++ sep :: b) = a :: split sep b.
Proof. apply split_from_at_sep with (acc := []). Qed.

Lemma split1_from_no_sep (sep : ascii) (s : text) : forall acc,
  ~ In sep s -> split1_from sep acc s = [rev acc ++ s].
Proof.
  induction s as [|c s IH]; intros acc H; simpl.
  - rewrite app_nil_r; auto.
  - destruct (Ascii.eqb_spec c sep) as [->|N].
    + exfalso; apply H; left; auto.
    + rewrite IH; [|intros K; apply H; right; auto].
      simpl; rewrite <- app_assoc; auto.
Qed.

Lemma split1_from_at_sep (sep : ascii) (a : text) : forall acc b,
  ~ In sep a ->
  split1_from sep acc (a ++ sep :: b) = [rev acc ++ a; b].
Proof.
  induction a as [|c a IH]; intros acc b H; simpl.
  - rewrite Ascii.eqb_refl, app_nil_r; auto.
  - destruct (Ascii.eqb_spec c sep) as [->|N].
    + exfalso; apply H; left; auto.
    + rewrite IH; [|intros K; apply H; right; auto].
      simpl; rewrite <- app_assoc; auto.
Qed.

Lemma split1_no_sep (sep : ascii) (s : text) : ~ In sep s -> split1 sep s = [s].
Proof. apply split1_from_no_sep with (acc := []). Qed.

Lemma split1_at_sep (sep : ascii) (a b : text) :
  ~ In sep a -> split1 sep (a ++ sep :: b) = [a; b].
Proof. apply split1_from_at_sep with (acc := []). Qed.

(** A text either has no separator or splits at its first one. *)
Lemma first_sep (sep : ascii) (s : text) :
  ~ In sep s \/ exists a b, s = a ++ sep :: b /\ ~ In sep a.
Proof.
  induction s as [|c s IH]; [left; auto|].
  destruct (Ascii.eqb_spec c sep) as [->|N].
  - right; exists [], s; auto.
  - destruct IH as [H | (a & b & -> & H)].
    + left; intros [K|K]; auto.
    + right; exists (c :: a), b; split; auto.
      intros [K|K]; auto.
Qed.

Lemma split_nonempty sep s : exists p ps, split sep s = p :: ps.
Proof.
  destruct (first_sep sep s) as [H | (a & b & -> & H)].
  - rewrite split_no_sep; eauto.
  - rewrite split_at_sep; eauto.
Qed.

End PyFacts.

(** ** The sections of the extractor *)

Module ScanFacts.
Import PyFacts.

Lemma first_index_none test lines : forall i,
  never test lines -> first_index test lines i = None.
Proof.
  induction lines as [|ln lines IH]; intros i H; simpl; auto.
  inversion H; subst. rewrite H2; auto.
Qed.

Lemma first_index_some test pre l post : forall i,
  never test pre -> test l = true ->
  first_index test (pre ++ l :: post) i = Some (i + length pre).
Proof.
  induction pre as [|ln pre IH]; intros i H Hl; simpl.
  - rewrite Hl; f_equal; lia.
  - inversion H; subst. rewrite H2, IH by auto. f_equal; lia.
Qed.

(** A list either never passes a test or splits at the first line
    that does. *)
Lemma first_line test (lines : list text) :
  never test lines
  \/ exists pre l post,
       lines = pre ++ l :: post /\ never test pre /\ test l = true.
Proof.
  induction lines as [|ln lines IH]; [left; constructor|].
  destruct (test ln) eqn:E.
  - right; exists [], ln, lines; repeat split; auto. constructor.
  - destruct IH as [H | (pre & l & post & -> & H & Hl)].
    + left; constructor; auto.
    + right; exists (ln :: pre), l, post; repeat split; auto.
      constructor; auto.
Qed.

Lemma until_colon_no_colon s : ~ In (chr ":") (Pure.until_colon s).
Proof.
  induction s as [|c s IH]; cbn [Pure.until_colon In]; auto.
  destruct (Ascii.eqb_spec c (chr ":")); cbn [In]; auto.
  intros [K|K]; auto.
Qed.

Lemma from_colon_none s : Pure.from_colon s = None <-> ~ In (chr ":") s.
Proof.
  induction s as [|c s IH]; cbn [Pure.from_colon In]; [tauto|].
  destruct (Ascii.eqb_spec c (chr ":")) as [->|N].
  - split; [discriminate|]. intros H; exfalso; apply H; auto.
  - rewrite IH; split; intros H; [intros [K|K]; auto|auto].
Qed.

Lemma from_colon_some s v :
  Pure.from_colon s = Some v <->
  exists a, s = a ++ chr ":" :: v /\ ~ In (chr ":") a.
Proof.
  revert v; induction s as [|c s IH]; intros v; cbn [Pure.from_colon].
  - split; [discriminate|]. intros ([|] & H & _); discriminate.
  - destruct (Ascii.eqb_spec c (chr ":")) as [->|N].
    + split.
      * intros H; inversion H; subst. exists []; auto.
      * intros ([|x a] & H & Ha); inversion H; subst; auto.
        exfalso; apply Ha; left; auto.
    + rewrite IH; split.
      * intros (a & -> & Ha); exists (c :: a); split; auto.
        intros [K|K]; auto.
      * intros ([|x a] & H & Ha); inversion H; subst;
          [exfalso; apply N; reflexivity|].
        exists a; split; auto. intros K; apply Ha; right; auto.
Qed.

Lemma until_colon_split s :
  s = Pure.until_colon s
  \/ exists b, s = Pure.until_colon s ++ chr ":" :: b.
Proof.
  induction s as [|c s IH]; cbn [Pure.until_colon]; auto.
  destruct (Ascii.eqb_spec c (chr ":")) as [->|N].
  - right; exists s; auto.
  - destruct IH as [IH | [b IH]].
    + left; congruence.
    + right; exists b; cbn [app]; congruence.
Qed.

Lemma split_head v :
  exists ps, Py.split (chr ":") v = Pure.until_colon v :: ps.
Proof.
  pose proof (until_colon_no_colon v) as Hu.
  destruct (until_colon_split v) as [Hv | [b Hv]];
    remember (Pure.until_colon v) as u eqn:U; clear U; subst v.
  - rewrite split_no_sep by auto; eauto.
  - rewrite split_at_sep by auto; eauto.
Qed.

(** The body of the name loops never raises, and this is its value. *)
Lemma name_value_pure ln : name_value ln = Ok (Pure.name_value_of ln).
Proof.
  unfold name_value, Pure.name_value_of.
  destruct (Pure.from_colon ln) as [v|] eqn:E.
  - apply from_colon_some in E as (a & -> & Ha).
    rewrite split_at_sep by auto.
    destruct (split_head v) as [ps ->]. reflexivity.
  - apply from_colon_none in E. rewrite split_no_sep by auto. reflexivity.
Qed.

Lemma block_name_pure block :
  block_name block =
  Ok (option_map Pure.name_value_of (find (mentions "name") block)).
Proof.
  induction block as [|ln block IH]; simpl; auto.
  destruct (mentions "name" ln); auto.
  rewrite name_value_pure; reflexivity.
Qed.

Lemma scan_name_pure lines :
  scan_name lines =
  Ok (option_map Pure.name_value_of (find is_name_line lines)).
Proof.
  induction lines as [|ln lines IH]; simpl; auto.
  destruct (is_name_line ln); auto.
  rewrite name_value_pure; reflexivity.
Qed.

Lemma find_none (test : text -> bool) lines :
  never test lines -> find test lines = None.
Proof.
  induction 1 as [|ln lines H _ IH]; simpl; auto. rewrite H; auto.
Qed.

Lemma find_first (test : text -> bool) pre l post :
  never test pre -> test l = true -> find test (pre ++ l :: post) = Some l.
Proof.
  induction 1 as [|ln lines H _ IH]; simpl; intros Hl.
  - rewrite Hl; auto.
  - rewrite H; auto.
Qed.

Lemma slice_window {A} (pre : list A) l post :
  Py.slice (length pre) (length pre + 5) (pre ++ l :: post)
  = firstn 5 (l :: post).
Proof.
  unfold Py.slice.
  replace (length pre + 5 - length pre) with 5 by lia.
  rewrite skipn_app, skipn_all, Nat.sub_diag; reflexivity.
Qed.

Lemma scan_emergency_none lines :
  never (mentions "emergency") lines ->
  scan_emergency lines = Ok (None, None).
Proof.
  intros H; unfold scan_emergency. rewrite first_index_none; auto.
Qed.

Lemma scan_emergency_some pre l post :
  never (mentions "emergency") pre -> mentions "emergency" l = true ->
  scan_emergency (pre ++ l :: post) =
  let block := firstn 5 (l :: post) in
  Ok (option_map Pure.name_value_of (find (mentions "name") block),
      block_phone block).
Proof.
  intros H Hl; unfold scan_emergency.
  rewrite first_index_some by auto. cbn [Nat.add].
  rewrite slice_window, block_name_pure. reflexivity.
Qed.

Lemma colon_fragment_code first_line :
  (let parts := Py.split1 (chr ":") first_line in
   if 1 <? length parts then
     p <- subscript parts 1 ;;
     Ok (if nonempty (Py.strip p) then [Py.strip p] else [])
   else Ok [])
  = Ok (Stated.colon_fragment first_line).
Proof.
  unfold Stated.colon_fragment.
  change Stated.after_colon with Pure.from_colon.
  destruct (Pure.from_colon first_line) as [v|] eqn:E.
  - apply from_colon_some in E as (a & -> & Ha).
    rewrite split1_at_sep by auto. reflexivity.
  - apply from_colon_none in E. rewrite split1_no_sep by auto. reflexivity.
Qed.

Lemma scan_address_none lines :
  never (mentions "address") lines -> scan_address lines = Ok None.
Proof.
  intros H; unfold scan_address. rewrite first_index_none; auto.
Qed.

Lemma scan_address_some pre l post :
  never (mentions "address") pre -> mentions "address" l = true ->
  scan_address (pre ++ l :: post) =
  Ok (Stated.joined (Stated.colon_fragment l ++ following_lines post)).
Proof.
  intros H Hl; unfold scan_address.
  rewrite first_index_some by auto. cbn [Nat.add].
  unfold subscript at 1.
  rewrite nth_error_app2, Nat.sub_diag by lia. cbn [nth_error bind].
  rewrite colon_fragment_code. cbn [bind].
  unfold Py.slice_from.
  replace (length pre + 1) with (length (pre ++ [l]))
    by (rewrite length_app; reflexivity).
  replace (pre ++ l :: post) with ((pre ++ [l]) ++ post)
    by (rewrite <- app_assoc; reflexivity).
  rewrite skipn_app, skipn_all, Nat.sub_diag. reflexivity.
Qed.


Lemma trimmed_lines_stripped norm : Forall stripped (trimmed_lines norm).
Proof.
  unfold trimmed_lines.
  induction (Py.splitlines norm) as [|ln lines IH]; simpl; [constructor|].
  destruct (Py.text_eqb (Py.strip ln) []) eqn:E; simpl; auto.
  constructor; auto. split; [apply strip_idem|].
  apply text_eqb_neq; auto.
Qed.


Lemma Forall_mid {A} (P : A -> Prop) pre l post :
  Forall P (pre ++ l :: post) -> Forall P pre /\ P l /\ Forall P post.
Proof.
  intros H. apply Forall_app in H as [H1 H2]. inversion H2; auto.
Qed.

(** The extractor never raises: its three line scans always return. *)
Theorem extract_fields_total t fn :
  exists r, extract_fields_rule_based t fn = Ok r
    /\ email r = first_match EMAIL_REGEX (normalize t)
    /\ phone r = scan_phone (normalize t)
    /\ pan r = first_match PAN_REGEX (normalize t)
    /\ aadhaar r = first_match AADHAAR_REGEX (normalize t)
    /\ ifsc r = first_match IFSC_REGEX (normalize t)
    /\ bank_account r = scan_bank_account (normalize t) (aadhaar r)
    /\ scan_emergency (trimmed_lines (normalize t))
       = Ok (emergency_contact_name r, emergency_contact_phone r)
    /\ scan_name (trimmed_lines (normalize t)) = Ok (name r)
    /\ scan_address (trimmed_lines (normalize t)) = Ok (address r)
    /\ source_file_name r = fn.
Proof.
  unfold extract_fields_rule_based.
  set (lines := trimmed_lines (normalize t)).
  assert (He : exists e, scan_emergency lines = Ok e).
  { destruct (first_line (mentions "emergency") lines)
      as [H | (pre & l & post & -> & H & Hl)].
    - rewrite scan_emergency_none; eauto.
    - rewrite scan_emergency_some; eauto. }
  assert (Ha : exists a, scan_address lines = Ok a).
  { destruct (first_line (mentions "address") lines)
      as [H | (pre & l & post & -> & H & Hl)].
    - rewrite scan_address_none; eauto.
    - rewrite scan_address_some; eauto. }
  destruct He as [[en ep] He], Ha as [a Ha].
  rewrite He, Ha, scan_name_pure. cbn [bind fst snd].
  eexists; split; [reflexivity|]. cbn. repeat split; auto.
Qed.

End ScanFacts.

(** ** Texts without any visible character *)

Module BlankFacts.
Import Re ReSpec ReFacts Shape ShapeFacts RunFacts PyFacts ScanFacts.

Lemma digit_not_space c : Chr.is_digit c = true -> Chr.is_space c = false.
Proof.
  intros H. destruct (Chr.is_space c) eqn:E; auto.
  apply space_not_digit in E; congruence.
Qed.

Lemma AZ_not_space c : Chr.is_AZ c = true -> Chr.is_space c = false.
Proof.
  intros H. destruct (Chr.is_space c) eqn:E; auto.
  apply space_not_word in E. apply AZ_word in H; congruence.
Qed.

Lemma local_part_not_space c :
  alnum_ascii c || one_of "._%+-" c = true -> Chr.is_space c = false.
Proof.
  destruct c as [[] [] [] [] [] [] [] []]; vm_compute; congruence.
Qed.

Lemma account_visible : starts_visible ACCOUNT_REGEX.
Proof.
  intros prev m rest D. apply account_denote in D as (_ & Hd & [Hlo _] & _).
  destruct m as [|c m]; [simpl in Hlo; lia|].
  simpl in Hd; apply andb_prop in Hd as [Hc _].
  exists c, m; auto using digit_not_space.
Qed.

Lemma aadhaar_visible : starts_visible AADHAAR_REGEX.
Proof.
  intros prev m rest D.
  apply aadhaar_denote in D as ((g1 & s1 & g2 & s2 & g3 & -> & [Hd Hl] & _) & _).
  destruct g1 as [|c g1]; [discriminate|].
  simpl in Hd; apply andb_prop in Hd as [Hc _].
  exists c, (g1 ++ s1 ++ g2 ++ s2 ++ g3); auto using digit_not_space.
Qed.

Lemma phone_visible : starts_visible PHONE_REGEX.
Proof.
  intros prev m rest D.
  apply phone_denote in D as (p & b & -> & P & c & b' & -> & Hc & _).
  destruct P as [-> | [-> | (e & -> & _)]].
  - exists c, b'; split; auto.
    apply digit_not_space, six_nine_digit; auto.
  - eexists _, _; split; [reflexivity|reflexivity].
  - eexists _, _; split; [reflexivity|reflexivity].
Qed.

Lemma email_visible : starts_visible EMAIL_REGEX.
Proof.
  intros prev m rest (m1 & m2 & -> & (Hc & Hlo & _) & _).
  destruct m1 as [|c m1]; [simpl in Hlo; lia|].
  simpl in Hc; apply andb_prop in Hc as [Hc _].
  exists c, (m1 ++ m2); auto using local_part_not_space.
Qed.

Lemma pan_visible : starts_visible PAN_REGEX.
Proof.
  intros prev m rest (m1 & m2 & -> & [-> _] & m3 & m4 & -> & T & _).
  apply denote_Times in T as [Hc Hl].
  destruct m3 as [|c m3]; [discriminate|].
  simpl in Hc; apply andb_prop in Hc as [Hc _].
  exists c, (m3 ++ m4); auto using AZ_not_space.
Qed.

Lemma ifsc_visible : starts_visible IFSC_REGEX.
Proof.
  intros prev m rest (m1 & m2 & -> & [-> _] & m3 & m4 & -> & T & _).
  apply denote_Times in T as [Hc Hl].
  destruct m3 as [|c m3]; [discriminate|].
  simpl in Hc; apply andb_prop in Hc as [Hc _].
  exists c, (m3 ++ m4); auto using AZ_not_space.
Qed.

Lemma blank_no_occurrence r s : starts_visible r -> blank s -> ~ occurs r s.
Proof.
  intros V B (pre & m & post & -> & D).
  apply V in D as (c & m' & -> & Hc).
  apply Forall_app in B as [_ B]. inversion B; subst. congruence.
Qed.

Lemma blank_search r s : starts_visible r -> blank s -> search r s = None.
Proof. intros V B; apply search_none, blank_no_occurrence; auto. Qed.

Lemma no_occurrence_finditer r s : ~ occurs r s -> finditer r s = [].
Proof.
  intros H. destruct (finditer r s) as [|d ds] eqn:E; auto.
  exfalso; apply H.
  destruct (finditer_occurs r s d) as (pre & post & O);
    [rewrite E; left; auto|].
  exists pre, d, post; auto.
Qed.

Lemma blank_normalize t : blank t -> blank (normalize t).
Proof.
  unfold normalize, Py.replace; induction 1 as [|c t H _ IH]; simpl;
    constructor; auto.
  destruct (Ascii.eqb c CR); auto.
Qed.

Lemma blank_lstrip s : blank s -> Py.lstrip s = [].
Proof. induction 1 as [|c s H _ IH]; simpl; auto. rewrite H; auto. Qed.

Lemma blank_strip s : blank s -> Py.strip s = [].
Proof.
  intros B; unfold Py.strip, Py.rstrip. rewrite (blank_lstrip s) by auto.
  reflexivity.
Qed.

Lemma blank_splitlines n : forall s acc,
  length s <= n -> blank acc -> blank s ->
  Forall blank (Py.splitlines_from acc s).
Proof.
  induction n as [|n IH]; intros s acc Hn Ba Bs.
  - destruct s; [|simpl in Hn; lia]. simpl.
    destruct acc; constructor; auto. apply Forall_rev; auto.
  - destruct s as [|c s]; simpl.
    { destruct acc; constructor; auto. apply Forall_rev; auto. }
    inversion Bs; subst. simpl in Hn.
    destruct (Chr.is_linebreak c).
    + constructor; [apply Forall_rev; auto|].
      destruct s as [|d s']; [constructor|].
      inversion H2; subst. simpl in Hn.
      destruct (Ascii.eqb c CR && Ascii.eqb d LF);
        apply IH; auto; try constructor; simpl; lia.
    + apply IH; auto; [lia|constructor; auto].
Qed.

Lemma blank_lines t : blank t -> trimmed_lines t = [].
Proof.
  intros B. unfold trimmed_lines, Py.splitlines.
  pose proof (blank_splitlines (length t) t [] (le_n _) (Forall_nil _) B) as H.
  induction H as [|ln lines Hl _ IH]; simpl; auto.
  rewrite (blank_strip _ Hl); simpl; auto.
Qed.

(** A text of white space only gives the record with every field
    null but the file name. *)
Theorem blank_text_null_record t fn :
  blank t -> extract_fields_rule_based t fn = Ok (Stated.null_record fn).
Proof.
  intros B. apply blank_normalize in B.
  unfold extract_fields_rule_based, first_match, scan_phone,
    scan_bank_account.
  rewrite (blank_lines _ B).
  rewrite !blank_search by
    auto using email_visible, phone_visible, pan_visible, aadhaar_visible,
      ifsc_visible.
  rewrite no_occurrence_finditer
    by (apply blank_no_occurrence; auto using account_visible).
  reflexivity.
Qed.

End BlankFacts.

(** ** The bank account and the Aadhaar number *)

Module AccountFacts.
Import Re ReSpec ReFacts Shape ShapeFacts RunFacts PyFacts ScanFacts.

Lemma skipped_spec dg d :
  skipped dg d = true <-> d = dg /\ length d = 12.
Proof.
  unfold skipped. rewrite andb_true_iff, text_eqb_eq, Nat.eqb_eq. tauto.
Qed.

Lemma pick_account_none dg cands :
  pick_account dg cands = None <->
  Forall (fun d => d = dg /\ length d = 12) cands.
Proof.
  induction cands as [|d cands IH]; simpl.
  - split; auto.
  - destruct (skipped dg d) eqn:E.
    + apply skipped_spec in E. rewrite IH. split; intros H.
      * constructor; auto.
      * inversion H; auto.
    + split; [discriminate|]. intros H; inversion H; subst.
      apply skipped_spec in H2; congruence.
Qed.

Lemma pick_account_some dg cands b :
  pick_account dg cands = Some b <->
  exists before after,
    cands = before ++ b :: after
    /\ Forall (fun d => d = dg /\ length d = 12) before
    /\ ~ (b = dg /\ length b = 12).
Proof.
  induction cands as [|d cands IH]; simpl.
  - split; [discriminate|]. intros ([|] & ? & H & _); discriminate.
  - destruct (skipped dg d) eqn:E.
    + rewrite IH. apply skipped_spec in E. split.
      * intros (before & after & -> & Hb & Hn).
        exists (d :: before), after; repeat split; auto.
      * intros ([|x before] & after & H & Hb & Hn); inversion H; subst.
        { contradiction. }
        inversion Hb; subst. exists before, after; auto.
    + assert (N : ~ (d = dg /\ length d = 12)).
      { intros K; apply skipped_spec in K; congruence. }
      split.
      * intros H; inversion H; subst. exists [], cands; auto.
      * intros ([|x before] & after & H & Hb & Hn); inversion H; subst; auto.
        inversion Hb; subst. contradiction.
Qed.

Lemma aadhaar_digits_of_some a :
  aadhaar_digits_of (Some a) = digits_only a.
Proof.
  unfold aadhaar_digits_of. destruct (Py.text_eqb a []) eqn:E; auto.
  apply text_eqb_eq in E; subst; reflexivity.
Qed.

(** What [search] finds with the Aadhaar pattern. *)
Lemma aadhaar_found s a :
  first_match AADHAAR_REGEX s = Some a ->
  exists pre post,
    s = pre ++ a ++ post /\ aadhaar_shape a
    /\ word_before (last_of None pre) = false /\ word_after post = false.
Proof.
  intros H. apply search_some in H as (pre & post & [Hs D] & _).
  apply aadhaar_denote in D as (Sh & Hp & Hr). eauto 6.
Qed.

Lemma aadhaar_found_digits s a :
  first_match AADHAAR_REGEX s = Some a -> length (digits_only a) = 12.
Proof.
  intros H. apply aadhaar_found in H as (_ & _ & _ & Sh & _).
  apply aadhaar_shape_digits in Sh as [_ L]; auto.
Qed.

(** *** One match only can start at a given place *)

Lemma digits4_inv g :
  digits 4 g ->
  exists a b c d,
    g = [a; b; c; d] /\ Chr.is_digit a = true /\ Chr.is_digit b = true
    /\ Chr.is_digit c = true /\ Chr.is_digit d = true.
Proof.
  intros [Hd Hl].
  destruct g as [|a [|b [|c [|d [|e g]]]]]; try discriminate.
  simpl in Hd. rewrite !andb_true_iff in Hd.
  exists a, b, c, d; tauto.
Qed.

Ltac clash :=
  exfalso;
  match goal with
  | H : Chr.is_space ?c = true, K : Chr.is_digit ?c = true |- _ =>
      apply space_not_digit in H; rewrite H in K; discriminate K
  end.

Lemma aadhaar_shape_unique v v' post post' :
  v ++ post = v' ++ post' -> aadhaar_shape v -> aadhaar_shape v' -> v = v'.
Proof.
  intros E A B.
  destruct A as (g1 & s1 & g2 & s2 & g3 & Hv & G1 & S1 & G2 & S2 & G3).
  destruct B as (h1 & t1 & h2 & t2 & h3 & Hv' & H1 & T1 & H2 & T2 & H3).
  subst v v'.
  apply digits4_inv in G1 as (a1 & a2 & a3 & a4 & -> & ? & ? & ? & ?).
  apply digits4_inv in G2 as (b1 & b2 & b3 & b4 & -> & ? & ? & ? & ?).
  apply digits4_inv in G3 as (c1 & c2 & c3 & c4 & -> & ? & ? & ? & ?).
  apply digits4_inv in H1 as (x1 & x2 & x3 & x4 & -> & ? & ? & ? & ?).
  apply digits4_inv in H2 as (y1 & y2 & y3 & y4 & -> & ? & ? & ? & ?).
  apply digits4_inv in H3 as (z1 & z2 & z3 & z4 & -> & ? & ? & ? & ?).
  rewrite <- !app_assoc in E.
  destruct S1 as [-> | (p & -> & ?)], T1 as [-> | (q & -> & ?)];
    destruct S2 as [-> | (p' & -> & ?)], T2 as [-> | (q' & -> & ?)];
    cbn [app] in E |- *; injection E as; subst; try reflexivity; clash.
Qed.

Lemma between_plus : Chr.between 54 57 (chr "+") = false.
Proof. reflexivity. Qed.

Lemma phone_shape_unique m m' post post' :
  m ++ post = m' ++ post' -> phone_shape m -> phone_shape m' ->
  phone_digits m = phone_digits m'.
Proof.
  intros E (p & b & -> & P & B) (p' & b' & -> & P' & B').
  rewrite !phone_digits_body by auto.
  assert (L : length b = 10 /\ length b' = 10).
  { apply phone_body_digits in B as [_ ?], B' as [_ ?]; auto. }
  assert (Q : forall x y : text, length x = 10 -> length y = 10 ->
                x ++ post = y ++ post' -> x = y).
  { intros x y Hx Hy K. apply (f_equal (firstn 10)) in K.
    rewrite !firstn_app, Hx, Hy, Nat.sub_diag in K. simpl in K.
    rewrite !app_nil_r in K.
    rewrite <- (firstn_all x), <- (firstn_all y), Hx, Hy; auto. }
  destruct L as [Lb Lb'].
  destruct B as (c & d & -> & Hc & _), B' as (c' & d' & -> & Hc' & _).
  assert (Sp : forall e, e = chr "-" \/ Chr.is_space e = true ->
                 Chr.between 54 57 e = false).
  { intros e [-> | He]; [reflexivity|].
    destruct (Chr.between 54 57 e) eqn:K; auto.
    apply six_nine_digit in K. apply space_not_digit in He. congruence. }
  destruct P as [-> | [-> | (e & -> & He)]],
           P' as [-> | [-> | (e' & -> & He')]];
    cbn [app str list_ascii_of_string] in E;
    try (apply (Q (c :: d) (c' :: d')); auto; cbn [app]; congruence);
    exfalso; injection E as; subst;
    try discriminate Hc; try discriminate Hc';
    try (apply Sp in He); try (apply Sp in He'); congruence.
Qed.

Lemma app_same_length {A} (a : list A) : forall b c d,
  a ++ b = c ++ d -> length a = length c -> a = c /\ b = d.
Proof.
  induction a as [|x a IH]; intros b [|y c] d E L; try discriminate; auto.
  simpl in *. injection E as -> E. injection L as L.
  destruct (IH _ _ _ E L) as [-> ->]; auto.
Qed.

End AccountFacts.

(** ** The plain terms against the code's tests *)

Module PlainFacts.
Import Re ReSpec ReFacts Shape ShapeFacts PyFacts ScanFacts AccountFacts.

Lemma startswith_iff p : forall s,
  Py.startswith p s = true <-> exists post, s = p ++ post.
Proof.
  induction p as [|x p IH]; intros s; simpl.
  - split; eauto.
  - destruct s as [|y s].
    + split; [discriminate|]. intros [post H]; discriminate.
    + rewrite andb_true_iff, IH. split.
      * intros [E [post ->]]. apply Ascii.eqb_eq in E; subst. eauto.
      * intros [post H]. injection H as -> ->.
        split; [apply Ascii.eqb_refl|eauto].
Qed.

(** [needle in hay] holds exactly when [needle] stands in [hay]. *)
Lemma contains_iff needle hay :
  Py.contains needle hay = true <-> exists pre post, hay = pre ++ needle ++ post.
Proof.
  induction hay as [|c hay IH]; cbn [Py.contains].
  - rewrite orb_false_r, startswith_iff. split.
    + intros [post H]. exists [], post; auto.
    + intros ([|x pre] & post & H); [eauto|discriminate].
  - rewrite orb_true_iff, startswith_iff, IH. split.
    + intros [[post H] | (pre & post & ->)].
      * exists [], post; auto.
      * exists (c :: pre), post; auto.
    + intros ([|x pre] & post & H).
      * left; eauto.
      * injection H as -> ->. right; eauto.
Qed.

Lemma says_iff key ln : mentions key ln = true <-> Plain.says key ln.
Proof. apply contains_iff. Qed.

Lemma says_dec key ln : mentions key ln = false <-> ~ Plain.says key ln.
Proof.
  rewrite <- says_iff. destruct (mentions key ln); split; auto;
    try discriminate. intros H; exfalso; auto.
Qed.

Lemma never_says key lines :
  Forall (fun ln => ~ Plain.says key ln) lines -> never (mentions key) lines.
Proof. apply Forall_impl. intros ln H. apply says_dec; auto. Qed.



Lemma digits_kept_code s : Plain.digits_kept s = digits_only s.
Proof.
  unfold digits_only.
  induction s as [|c s IH]; [reflexivity|].
  cbn [Plain.digits_kept filter]. rewrite IH. reflexivity.
Qed.

Lemma aadhaar_digits_code a : aadhaar_digits_of a = Plain.aadhaar_digits a.
Proof.
  destruct a as [a|]; [|reflexivity].
  rewrite aadhaar_digits_of_some. symmetry. apply digits_kept_code.
Qed.

(** The digit form of a matched Aadhaar number is its three groups,
    without the gaps. *)
Lemma groups_digits g1 s1 g2 s2 g3 :
  digits 4 g1 -> gap s1 -> digits 4 g2 -> gap s2 -> digits 4 g3 ->
  Plain.digits_kept (g1 ++ s1 ++ g2 ++ s2 ++ g3) = g1 ++ g2 ++ g3.
Proof.
  intros [D1 _] S1 [D2 _] S2 [D3 _].
  assert (G : forall s, gap s -> digits_only s = []).
  { intros s [-> | (c & -> & Hc)]; simpl; auto.
    rewrite (space_not_digit _ Hc); auto. }
  rewrite digits_kept_code. unfold digits_only in *.
  rewrite !filter_app, (G _ S1), (G _ S2), !filter_all by auto.
  reflexivity.
Qed.

End PlainFacts.

(** * The claims *)

Import Re ReSpec ReFacts Shape ShapeFacts RunFacts PyFacts ScanFacts
  BlankFacts AccountFacts Examples.

Lemma digit_form_code a : aadhaar_digits_of a = digit_form a.
Proof. destruct a; [apply aadhaar_digits_of_some|reflexivity]. Qed.

(** C1 (as amended). Bank-account selection: the candidates are the
    stand-alone runs of 9 to 18 digits of the normalized text, in
    order of appearance; a candidate is skipped exactly when it
    equals the digit-only form of the Aadhaar field and has 12
    characters; the bank account is the first candidate that is not
    skipped, and null when every candidate is skipped.  The digit-only
    form of a matched Aadhaar number is its three groups of four
    digits without the gaps.  When the Aadhaar field is set and every
    candidate before an 11-digit run is the Aadhaar digit form, that
    run is the bank account. *)
Theorem bank_account_selection (t fn : text) :
  exists r,
    extract_fields_rule_based t fn = Ok r
    /\ let candidates := Runs.standalone_runs (normalize t) in
       let aadhaar_digits := Plain.aadhaar_digits (aadhaar r) in
       let skip d := d = aadhaar_digits /\ length d = 12 in
       (bank_account r = None <-> Forall skip candidates)
       /\ (forall b,
             bank_account r = Some b <->
             exists before after,
               candidates = before ++ b :: after
               /\ Forall skip before /\ ~ skip b)
       /\ (forall a,
             aadhaar r = Some a ->
             exists g1 s1 g2 s2 g3,
               a = g1 ++ s1 ++ g2 ++ s2 ++ g3
               /\ digits 4 g1 /\ gap s1 /\ digits 4 g2 /\ gap s2
               /\ digits 4 g3
               /\ aadhaar_digits = g1 ++ g2 ++ g3)
       /\ (forall a b before after,
             aadhaar r = Some a ->
             candidates = before ++ b :: after ->
             Forall (fun d => d = aadhaar_digits) before ->
             length b = 11 ->
             bank_account r = Some b).
Proof.
  destruct (extract_fields_total t fn)
    as (r & E & _ & _ & _ & Ha & _ & Hb & _).
  exists r; split; auto. cbn zeta.
  unfold scan_bank_account in Hb.
  rewrite finditer_account, PlainFacts.aadhaar_digits_code in Hb. rewrite Hb.
  split; [apply pick_account_none|].
  split; [intros b; apply pick_account_some|].
  split.
  - intros a Haa. rewrite Haa in Ha. symmetry in Ha.
    apply aadhaar_found in Ha
      as (_ & _ & _ & (g1 & s1 & g2 & s2 & g3 & -> & G1 & S1 & G2 & S2 & G3)
          & _).
    exists g1, s1, g2, s2, g3. rewrite Haa. cbn [Plain.aadhaar_digits].
    refine (conj eq_refl (conj G1 (conj S1 (conj G2 (conj S2 (conj G3 _)))))).
    apply PlainFacts.groups_digits; auto.
  - intros a b before after Haa Hc Hbefore Hlen.
    apply pick_account_some. exists before, after; split; auto.
    rewrite Haa in *. cbn [Plain.aadhaar_digits] in *.
    symmetry in Ha; apply aadhaar_found_digits in Ha.
    rewrite <- PlainFacts.digits_kept_code in Ha.
    split; [|lia].
    eapply Forall_impl; [|exact Hbefore].
    cbn beta; intros d ->; auto.
Qed.

Lemma bank_account_selection_witness :
  exists r,
    extract_fields_rule_based Inputs.grouped_plain_account pdf = Ok r
    /\ aadhaar r = Some (str "1234 5678 9012")
    /\ bank_account r = Some (str "12345678901").
Proof.
  destruct (bank_account_selection Inputs.grouped_plain_account pdf)
    as (r & E & _ & _ & _ & H).
  exists r; split; [exact E|].
  assert (Ha : aadhaar r = Some (str "1234 5678 9012"))
    by (vm_compute in E; inversion E; reflexivity).
  split; [exact Ha|].
  apply (H (str "1234 5678 9012") (str "12345678901")
           [str "123456789012"] []).
  - exact Ha.
  - reflexivity.
  - rewrite Ha. repeat constructor.
  - reflexivity.
Defined.

(** C1, as stated, fails: the text holds a 12-digit Aadhaar number
    and a separate 11-digit number, and the bank account is the
    phone number that stands before them. *)
Lemma bank_account_phone_first_counterexample :
  exists r,
    extract_fields_rule_based Inputs.phone_aadhaar_account pdf = Ok r
    /\ aadhaar r = Some (str "123456789012")
    /\ In (str "12345678901")
          (Runs.standalone_runs (normalize Inputs.phone_aadhaar_account))
    /\ bank_account r = Some (str "9876543210")
    /\ bank_account r <> Some (str "12345678901").
Proof.
  eexists. split; [reflexivity|]. split; [reflexivity|].
  split; [vm_compute; tauto|]. split; [reflexivity|].
  vm_compute; discriminate.
Qed.

(** C2. Disambiguation invariant: the bank account of a returned
    record is never the digit-only form of its Aadhaar field.  (The
    digit form of a matched Aadhaar number always has 12 digits, so
    this covers the case where both are 12-digit numbers.) *)
Theorem bank_account_is_not_aadhaar (t fn : text) (r : record) (a b : text) :
  extract_fields_rule_based t fn = Ok r ->
  aadhaar r = Some a ->
  bank_account r = Some b ->
  length (digits_only a) = 12 /\ b <> digits_only a.
Proof.
  intros E Ha Hb.
  destruct (extract_fields_total t fn)
    as (r' & E' & _ & _ & _ & Ha' & _ & Hb' & _).
  rewrite E in E'; inversion E'; subst r'; clear E'.
  rewrite Ha in Ha'; symmetry in Ha'.
  pose proof (aadhaar_found_digits _ _ Ha') as L.
  split; auto. intros ->.
  rewrite Hb, Ha in Hb'. symmetry in Hb'.
  apply pick_account_some in Hb' as (_ & _ & _ & _ & N).
  apply N. rewrite aadhaar_digits_of_some; auto.
Qed.

Lemma bank_account_is_not_aadhaar_witness :
  str "210987654321" <> digits_only (str "123456789012").
Proof.
  refine (proj2 (bank_account_is_not_aadhaar two_numbers pdf
    (mkRecord None None None None (Some (str "123456789012")) None
       (Some (str "210987654321")) None None None pdf)
    (str "123456789012") (str "210987654321") _ _ _));
    reflexivity.
Defined.

Lemma has_phone_occurs s : has_phone s <-> occurs PHONE_REGEX s.
Proof.
  split; intros (pre & m & post & Hs & H); exists pre, m, post; split; auto;
    eapply phone_denote; eauto.
Qed.

Lemma scan_phone_none s : scan_phone s = None <-> ~ has_phone s.
Proof.
  rewrite has_phone_occurs, <- search_none. unfold scan_phone.
  destruct (search PHONE_REGEX s); simpl; split; auto; discriminate.
Qed.

Lemma scan_phone_none_has s : has_phone s -> scan_phone s <> None.
Proof. intros H E; apply scan_phone_none in E; contradiction. Qed.

Lemma scan_phone_some s b :
  scan_phone s = Some b <->
  exists pre p post,
    s = pre ++ (p ++ b) ++ post /\ phone_prefix p /\ phone_body b
    /\ forall pre' m' post',
         s = pre' ++ m' ++ post' -> phone_shape m' ->
         length pre <= length pre'.
Proof.
  assert (Fwd : forall b0, scan_phone s = Some b0 ->
    exists pre p post,
      s = pre ++ (p ++ b0) ++ post /\ phone_prefix p /\ phone_body b0
      /\ forall pre' m' post',
           s = pre' ++ m' ++ post' -> phone_shape m' ->
           length pre <= length pre').
  { intros b0. unfold scan_phone.
    destruct (search PHONE_REGEX s) as [m|] eqn:E; [|discriminate].
    intros H; inversion H; subst b0; clear H.
    apply search_some in E as (pre & post & [Hs D] & Hmin).
    apply phone_denote in D as (p & b0 & -> & P & B).
    rewrite phone_digits_body by auto.
    exists pre, p, post; repeat split; auto.
    intros pre' m' post' Hs' Sh. apply (Hmin pre' m' post').
    split; auto. apply phone_denote; auto. }
  split; [apply Fwd|].
  intros (pre & p & post & Hs & P & B & Hmin).
  destruct (scan_phone s) as [b0|] eqn:E.
  - destruct (Fwd b0 eq_refl) as (pre0 & p0 & post0 & Hs0 & P0 & B0 & Hmin0).
    assert (L : length pre0 = length pre).
    { apply Nat.le_antisymm.
      - apply (Hmin0 pre (p ++ b) post); auto. exists p, b; auto.
      - apply (Hmin pre0 (p0 ++ b0) post0); auto. exists p0, b0; auto. }
    rewrite Hs in Hs0.
    destruct (app_same_length _ _ _ _ Hs0 (eq_sym L)) as [_ K].
    apply phone_shape_unique in K; [|exists p, b; auto|exists p0, b0; auto].
    rewrite !phone_digits_body in K by auto. congruence.
  - exfalso. revert E. apply scan_phone_none_has. exists pre, (p ++ b), post.
    split; auto. exists p, b; auto.
Qed.

Lemma scan_phone_found s :
  has_phone s -> exists b, scan_phone s = Some b /\ phone_body b.
Proof.
  intros H. destruct (scan_phone s) as [b|] eqn:E.
  - exists b; split; auto.
    apply scan_phone_some in E as (_ & _ & _ & _ & _ & B & _); auto.
  - apply scan_phone_none in E; contradiction.
Qed.

Lemma block_phone_none block :
  Forall (fun ln => ~ has_phone ln) block -> block_phone block = None.
Proof.
  induction 1 as [|ln block H _ IH]; simpl; auto.
  apply scan_phone_none in H. unfold scan_phone in H.
  destruct (search PHONE_REGEX ln); [discriminate|auto].
Qed.

Lemma block_phone_first w1 ln w2 :
  Forall (fun ln => ~ has_phone ln) w1 -> has_phone ln ->
  block_phone (w1 ++ ln :: w2) = scan_phone ln.
Proof.
  induction 1 as [|x w1 H _ IH]; intros Hl; simpl.
  - unfold scan_phone. destruct (search PHONE_REGEX ln) eqn:E; auto.
    apply scan_phone_found in Hl as (b & Hb & _).
    unfold scan_phone in Hb; rewrite E in Hb; discriminate.
  - apply scan_phone_none in H. unfold scan_phone in H.
    destruct (search PHONE_REGEX x); [discriminate|auto].
Qed.

Lemma never_firstn test n (lines : list text) :
  never test lines -> never test (firstn n lines).
Proof.
  intros H; revert n; induction H as [|ln lines Hl _ IH]; intros [|n];
    simpl; constructor; auto. apply IH.
Qed.

(** C10 (as amended). Every candidate of the generic account matcher
    is a contiguous stand-alone run of 9 to 18 digits of the
    normalized text; so an Aadhaar value matched with internal
    spacing is itself never a candidate, and the length-12 skip rule
    fires only on a candidate that is the Aadhaar digit form standing
    ungrouped in the text. *)
Theorem account_candidates_are_runs (t fn : text) :
  exists r,
    extract_fields_rule_based t fn = Ok r
    /\ forall d,
         In d (finditer ACCOUNT_REGEX (normalize t)) ->
         (exists pre post,
            normalize t = pre ++ d ++ post
            /\ standalone_run (last_of None pre) d post)
         /\ (forall a, aadhaar r = Some a -> a <> digits_only a -> d <> a)
         /\ (skipped (aadhaar_digits_of (aadhaar r)) d = true ->
             exists a pre post,
               aadhaar r = Some a /\ d = digits_only a /\ length d = 12
               /\ normalize t = pre ++ digits_only a ++ post
               /\ standalone_run (last_of None pre) (digits_only a) post).
Proof.
  destruct (extract_fields_total t fn) as (r & E & _).
  exists r; split; auto. intros d Hd.
  apply finditer_occurs in Hd as (pre & post & Hs & D).
  apply account_denote in D. split; [eauto|]. split.
  - intros a _ Ha ->. apply Ha.
    destruct D as (_ & Hdig & _). unfold digits_only.
    rewrite filter_all; auto.
  - rewrite skipped_spec, digit_form_code. intros [Hd L].
    destruct (aadhaar r) as [a|]; cbn [digit_form] in Hd.
    + subst d. exists a, pre, post; auto.
    + subst d; discriminate L.
Qed.

Lemma account_candidates_are_runs_witness :
  exists a pre post,
    Some (str "1234 5678 9012") = Some a
    /\ str "123456789012" = digits_only a
    /\ length (str "123456789012") = 12
    /\ normalize grouped_then_plain = pre ++ digits_only a ++ post
    /\ standalone_run (last_of None pre) (digits_only a) post.
Proof.
  destruct (account_candidates_are_runs grouped_then_plain pdf)
    as (r & E & H).
  vm_compute in E. inversion E; subst r; clear E.
  apply (H (str "123456789012")).
  - left; reflexivity.
  - reflexivity.
Defined.

(** C10, as stated, fails: the Aadhaar value is matched with its
    spacing, and its digit form still is a generic-account match,
    where the number stands ungrouped later in the text; the skip
    rule fires on it. *)
Lemma grouped_aadhaar_counterexample :
  exists r a,
    extract_fields_rule_based grouped_then_plain pdf = Ok r
    /\ aadhaar r = Some a
    /\ In (chr " ") a
    /\ In (digits_only a) (finditer ACCOUNT_REGEX (normalize grouped_then_plain))
    /\ skipped (aadhaar_digits_of (aadhaar r)) (digits_only a) = true
    /\ bank_account r = None.
Proof.
  eexists; exists (str "1234 5678 9012").
  split; [reflexivity|]. split; [reflexivity|].
  split; [vm_compute; tauto|]. split; [vm_compute; tauto|].
  split; reflexivity.
Qed.

(** C8 (as amended). The Aadhaar field is the leftmost text of the
    normalized text that is three groups of four digits, each of the
    two gaps between them empty or a single white-space character of
    any kind (space, tab, line break), with no word character before
    or after it; it is kept as found; it is null exactly when the
    text has no such run. *)
Theorem aadhaar_first_match (t fn : text) :
  exists r,
    extract_fields_rule_based t fn = Ok r
    /\ (aadhaar r = None <->
        ~ exists pre v post, standalone_aadhaar (normalize t) pre v post)
    /\ (forall v,
          aadhaar r = Some v <->
          exists pre post,
            standalone_aadhaar (normalize t) pre v post
            /\ forall pre' v' post',
                 standalone_aadhaar (normalize t) pre' v' post' ->
                 length pre <= length pre').
Proof.
  destruct (extract_fields_total t fn) as (r & E & _ & _ & _ & Ha & _).
  exists r; split; auto. rewrite Ha. unfold first_match.
  assert (Q : forall pre v post,
            standalone_aadhaar (normalize t) pre v post <->
            occurs_at AADHAAR_REGEX (normalize t) pre v post).
  { intros pre v post. unfold standalone_aadhaar, occurs_at.
    rewrite aadhaar_denote. tauto. }
  assert (None_iff : search AADHAAR_REGEX (normalize t) = None <->
            ~ exists pre v post, standalone_aadhaar (normalize t) pre v post).
  { rewrite search_none. split; intros H (pre & v & post & K); apply H;
      exists pre, v, post; apply Q; auto. }
  assert (Fwd : forall v, search AADHAAR_REGEX (normalize t) = Some v ->
            exists pre post,
              standalone_aadhaar (normalize t) pre v post
              /\ forall pre' v' post',
                   standalone_aadhaar (normalize t) pre' v' post' ->
                   length pre <= length pre').
  { intros v H. apply search_some in H as (pre & post & O & Hmin).
    exists pre, post; split; [apply Q; auto|].
    intros pre' v' post' K. apply (Hmin pre' v' post'), Q; auto. }
  split; [exact None_iff|].
  intros v; split; [apply Fwd|].
  intros (pre & post & S & Hmin).
  destruct (search AADHAAR_REGEX (normalize t)) as [v0|] eqn:E0.
  - destruct (Fwd v0 eq_refl) as (pre0 & post0 & S0 & Hmin0).
    assert (L : length pre0 = length pre).
    { apply Nat.le_antisymm; [eapply Hmin0|eapply Hmin]; eauto. }
    destruct S as (Hs & Sh & _), S0 as (Hs0 & Sh0 & _).
    rewrite Hs in Hs0.
    destruct (app_same_length _ _ _ _ Hs0 (eq_sym L)) as [_ K].
    f_equal. symmetry. eapply aadhaar_shape_unique; eauto.
  - exfalso. apply None_iff; eauto.
Qed.

Lemma aadhaar_first_match_witness :
  exists pre post,
    standalone_aadhaar (normalize (str "id 1234 5678 9012.")) pre
      (str "1234 5678 9012") post.
Proof.
  destruct (aadhaar_first_match (str "id 1234 5678 9012.") pdf)
    as (r & E & _ & H).
  vm_compute in E. inversion E; subst r; clear E.
  destruct (proj1 (H (str "1234 5678 9012")) eq_refl)
    as (pre & post & S & _).
  exists pre, post; exact S.
Defined.

(** C8, as stated, fails: a match need not be ungrouped or grouped
    4-4-4. *)
Lemma aadhaar_grouping_counterexample :
  exists r v,
    extract_fields_rule_based (str "1234 56789012") pdf = Ok r
    /\ aadhaar r = Some v
    /\ Stated.aadhaar_as_stated v = false.
Proof.
  eexists; exists (str "1234 56789012").
  split; [reflexivity|]. split; reflexivity.
Qed.

(** C5 (as amended). The phone field is found at the leftmost place
    of the normalized text where a ten-digit number starting with 6 to
    9 stands, alone or after [+91] and at most one hyphen or
    white-space character; it is that ten-digit number, without the
    prefix; it is null exactly when the text has no such place.  A
    prefix [91] without the plus sign is not recognised.  The text
    [+91-9876543210] gives [9876543210]. *)
Theorem phone_first_match :
  (forall t fn : text,
     exists r,
       extract_fields_rule_based t fn = Ok r
       /\ (phone r = None <-> ~ has_phone (normalize t))
       /\ (forall b,
             phone r = Some b <->
             exists pre p post,
               normalize t = pre ++ (p ++ b) ++ post
               /\ phone_prefix p /\ phone_body b
               /\ forall pre' m' post',
                    normalize t = pre' ++ m' ++ post' -> phone_shape m' ->
                    length pre <= length pre'))
  /\ (exists r,
        extract_fields_rule_based (str "+91-9876543210") pdf = Ok r
        /\ phone r = Some (str "9876543210")).
Proof.
  split.
  - intros t fn.
    destruct (extract_fields_total t fn) as (r & E & _ & Hp & _).
    exists r; split; auto. rewrite Hp. split.
    + apply scan_phone_none.
    + intros b; apply scan_phone_some.
  - eexists; split; reflexivity.
Qed.

Lemma phone_first_match_witness :
  exists pre p post,
    normalize (str "+91-9876543210") = pre ++ (p ++ str "9876543210") ++ post
    /\ phone_prefix p /\ phone_body (str "9876543210").
Proof.
  destruct (proj1 phone_first_match (str "+91-9876543210") pdf)
    as (r & E & _ & H).
  vm_compute in E. inversion E; subst r; clear E.
  destruct (proj1 (H (str "9876543210")) eq_refl)
    as (pre & p & post & Hs & P & B & _).
  exists pre, p, post; auto.
Defined.

(** C5, as stated, fails: with the prefix [91] the pattern of the
    statement gives the ten digits after the prefix, the extractor
    the first ten digits of the run. *)
Lemma phone_bare_prefix_counterexample :
  exists r,
    extract_fields_rule_based (str "919876543210") pdf = Ok r
    /\ phone r = Some (str "9198765432")
    /\ Stated.phone_of (normalize (str "919876543210"))
       = Some (str "9876543210")
    /\ phone r <> Stated.phone_of (normalize (str "919876543210")).
Proof.
  eexists. split; [reflexivity|]. split; [reflexivity|].
  split; [reflexivity|]. vm_compute; discriminate.
Qed.



(** C7 (as amended). Emergency-contact window: the first trimmed
    line whose lowercase form holds "emergency" starts a window of
    that line and the four lines after it; the emergency phone is
    taken from the first line of the window that holds a phone
    number, that is a ten-digit number starting with 6 to 9, alone or
    after [+91] and at most one hyphen or white-space character (a
    prefix [91] without the plus sign is not recognised): it is the
    ten-digit number at the leftmost such place of that line,
    without the prefix; the emergency name is taken from the first
    line of the window whose lowercase form holds "name"; both are
    null when no line holds "emergency". *)
Theorem emergency_window (t fn : text) :
  exists r,
    extract_fields_rule_based t fn = Ok r
    /\ let lines := trimmed_lines (normalize t) in
       (Forall (fun ln => ~ Plain.says "emergency" ln) lines ->
        emergency_contact_name r = None
        /\ emergency_contact_phone r = None)
       /\ (forall pre l post,
             lines = pre ++ l :: post ->
             Forall (fun ln => ~ Plain.says "emergency" ln) pre ->
             Plain.says "emergency" l ->
             let window := firstn 5 (l :: post) in
             (Forall (fun ln => ~ has_phone ln) window ->
              emergency_contact_phone r = None)
             /\ (forall w1 ln w2,
                   window = w1 ++ ln :: w2 ->
                   Forall (fun ln => ~ has_phone ln) w1 ->
                   has_phone ln ->
                   (exists b, emergency_contact_phone r = Some b)
                   /\ forall b,
                        emergency_contact_phone r = Some b <->
                        exists before p after,
                          ln = before ++ (p ++ b) ++ after
                          /\ phone_prefix p /\ phone_body b
                          /\ forall before' m' after',
                               ln = before' ++ m' ++ after' ->
                               phone_shape m' ->
                               length before <= length before')
             /\ (Forall (fun ln => ~ Plain.says "name" ln) window ->
                 emergency_contact_name r = None)
             /\ (forall w1 ln w2,
                   window = w1 ++ ln :: w2 ->
                   Forall (fun ln => ~ Plain.says "name" ln) w1 ->
                   Plain.says "name" ln ->
                   emergency_contact_name r
                   = Some (Pure.name_value_of ln))).
Proof.
  destruct (extract_fields_total t fn)
    as (r & E & _ & _ & _ & _ & _ & _ & He & _).
  exists r; split; auto. cbn zeta. split.
  - intros H. apply PlainFacts.never_says in H.
    rewrite scan_emergency_none in He by auto.
    inversion He; auto.
  - intros pre l post Hl Hpre Hm. set (window := firstn 5 (l :: post)).
    apply PlainFacts.never_says in Hpre.
    apply PlainFacts.says_iff in Hm.
    rewrite Hl in He.
    rewrite scan_emergency_some in He by auto. cbn zeta in He.
    fold window in He. clearbody window.
    injection He as Hn Hp. rewrite <- Hn, <- Hp.
    split; [|split; [|split]].
    + intros H. apply block_phone_none; auto.
    + intros w1 ln w2 Hw H1 H2. rewrite Hw.
      rewrite block_phone_first by auto.
      split; [|intros b; apply scan_phone_some].
      destruct (scan_phone_found ln H2) as (b & Hb & _). eauto.
    + intros H. apply PlainFacts.never_says in H.
      rewrite find_none; auto.
    + intros w1 ln w2 Hw H1 H2.
      apply PlainFacts.never_says in H1.
      apply PlainFacts.says_iff in H2.
      rewrite Hw, find_first; auto.
Qed.

Lemma emergency_window_witness :
  exists r,
    extract_fields_rule_based Inputs.emergency_plus_prefix pdf = Ok r
    /\ emergency_contact_name r
       = Some (Pure.name_value_of (str "Contact Name: John Smith"))
    /\ exists before p after,
         str "Phone: +91-9876543210"
         = before ++ (p ++ str "9876543210") ++ after
         /\ phone_prefix p /\ phone_body (str "9876543210").
Proof.
  destruct (emergency_window Inputs.emergency_plus_prefix pdf)
    as (r & E & _ & H).
  exists r; split; [exact E|].
  destruct (H [] (str "EMERGENCY CONTACT")
              [str "Contact Name: John Smith"; str "Phone: +91-9876543210"])
    as (_ & Hp & _ & Hn).
  - reflexivity.
  - constructor.
  - exists [], (str " contact"); reflexivity.
  - split.
    + apply (Hn [str "EMERGENCY CONTACT"] (str "Contact Name: John Smith")
                [str "Phone: +91-9876543210"]).
      * reflexivity.
      * constructor; [|constructor].
        apply PlainFacts.says_dec; reflexivity.
      * exists (str "contact "), (str ": john smith"); reflexivity.
    + destruct (Hp [str "EMERGENCY CONTACT"; str "Contact Name: John Smith"]
                   (str "Phone: +91-9876543210") []) as [_ Hb].
      * reflexivity.
      * repeat constructor; apply scan_phone_none; reflexivity.
      * exists (str "Phone: "), (str "+91-9876543210"), [].
        split; [reflexivity|].
        exists (str "+91-"), (str "9876543210"); split; [reflexivity|].
        split; [right; right; exists (chr "-"); split; auto|].
        exists (chr "9"), (str "876543210"); repeat split.
      * destruct (proj1 (Hb (str "9876543210")))
          as (before & p & after & Hs & P & B & _).
        { vm_compute in E. inversion E. reflexivity. }
        exists before, p, after; auto.
Defined.

(** C7, as stated, fails: with the prefix [91] without plus the
    phone pattern of the statement gives the ten digits after the
    prefix, the emergency block the first ten digits of the run. *)
Lemma emergency_bare_prefix_counterexample :
  exists r,
    extract_fields_rule_based Inputs.emergency_bare_prefix pdf = Ok r
    /\ emergency_contact_phone r = Some (str "9198765432")
    /\ Stated.phone_of (str "Phone: 919876543210") = Some (str "9876543210")
    /\ emergency_contact_phone r
       <> Stated.phone_of (str "Phone: 919876543210").
Proof.
  eexists. split; [reflexivity|]. split; [reflexivity|].
  split; [reflexivity|]. vm_compute; discriminate.
Qed.

(** C4. The value of a name-bearing line, in both name loops, is the
    trimmed part between the first colon and the next one, and the
    whole trimmed line when there is no colon: on a line with two
    colons it is not the text after the first colon. *)
Theorem name_value_between_colons :
  (forall ln, name_value ln = Ok (Pure.name_value_of ln))
  /\ exists r,
       extract_fields_rule_based two_colons pdf = Ok r
       /\ name r = Some (str "Jane Doe")
       /\ Stated.labeled_value (str "Name: Jane Doe: Senior Engineer")
          = str "Jane Doe: Senior Engineer"
       /\ emergency_contact_name r = Some (str "John Smith (Relation")
       /\ Stated.labeled_value (str "Name: John Smith (Relation: Brother)")
          = str "John Smith (Relation: Brother)".
Proof.
  split; [apply name_value_pure|].
  eexists; split; [reflexivity|]. repeat split.
Qed.

(** C9. Field absence is never an error: the extractor returns a
    record for every text and file name, with the file name in it; a
    field whose pattern occurs nowhere in the normalized text, or
    whose label no line mentions, is null, whatever the other fields
    are; the empty text gives the record with every field null. *)
Theorem field_absence_is_null (t fn : text) :
  exists r,
    extract_fields_rule_based t fn = Ok r
    /\ source_file_name r = fn
    /\ let norm := normalize t in
       let lines := trimmed_lines norm in
       (~ occurs EMAIL_REGEX norm -> email r = None)
       /\ (~ occurs PHONE_REGEX norm -> phone r = None)
       /\ (~ occurs PAN_REGEX norm -> pan r = None)
       /\ (~ occurs AADHAAR_REGEX norm -> aadhaar r = None)
       /\ (~ occurs IFSC_REGEX norm -> ifsc r = None)
       /\ (~ occurs ACCOUNT_REGEX norm -> bank_account r = None)
       /\ (never (mentions "name") lines ->
           name r = None /\ emergency_contact_name r = None)
       /\ (never (mentions "emergency") lines ->
           emergency_contact_name r = None
           /\ emergency_contact_phone r = None)
       /\ (never (mentions "address") lines -> address r = None)
       /\ (t = [] -> r = Stated.null_record fn).
Proof.
  destruct (extract_fields_total t fn)
    as (r & E & He & Hp & Hpan & Ha & Hi & Hb & Hem & Hn & Had & Hf).
  exists r; split; auto. split; auto. cbn zeta.
  unfold first_match in *.
  split; [|split; [|split; [|split; [|split; [|split; [|split; [|split;
    [|split]]]]]]]].
  - intros H; rewrite He; apply search_none; auto.
  - intros H; rewrite Hp; apply scan_phone_none.
    intros K; apply H, has_phone_occurs; auto.
  - intros H; rewrite Hpan; apply search_none; auto.
  - intros H; rewrite Ha; apply search_none; auto.
  - intros H; rewrite Hi; apply search_none; auto.
  - intros H; rewrite Hb. unfold scan_bank_account.
    rewrite no_occurrence_finditer; auto.
  - intros H. split.
    + rewrite scan_name_pure in Hn.
      injection Hn as Hn. rewrite <- Hn, find_none; auto.
      eapply Forall_impl; [|exact H].
      cbn beta; intros ln K. unfold is_name_line; rewrite K; reflexivity.
    + destruct (first_line (mentions "emergency")
                  (trimmed_lines (normalize t)))
        as [K | (pre & l & post & Hl & Hpre & Hm)].
      * rewrite scan_emergency_none in Hem by auto. congruence.
      * rewrite Hl in Hem, H.
        rewrite scan_emergency_some in Hem by auto. cbn zeta in Hem.
        apply Forall_mid in H as (_ & H1 & H2).
        rewrite find_none in Hem.
        { cbn [option_map] in Hem; congruence. }
        apply never_firstn; constructor; auto.
  - intros H. rewrite scan_emergency_none in Hem by auto.
    split; congruence.
  - intros H. rewrite scan_address_none in Had by auto. congruence.
  - intros ->. vm_compute in E. inversion E; reflexivity.
Qed.

Lemma field_absence_is_null_witness :
  exists r,
    extract_fields_rule_based (str "Name: Jane Doe") pdf = Ok r
    /\ name r = Some (str "Jane Doe")
    /\ email r = None /\ address r = None.
Proof.
  destruct (field_absence_is_null (str "Name: Jane Doe") pdf)
    as (r & E & _ & He & _ & _ & _ & _ & _ & _ & _ & Ha & _).
  exists r; split; [exact E|]. split; [|split].
  - vm_compute in E. inversion E. reflexivity.
  - apply He. apply search_none. reflexivity.
  - apply Ha. repeat constructor.
Defined.

(** ** The upload loop *)

Section BatchFacts.

Variable pdf_pages : list Byte.byte -> result (list (option text)).

Lemma blank_pages pages :
  Forall (fun p => page_text p = []) pages ->
  blank (Py.join [LF] (map page_text pages)).
Proof.
  induction 1 as [|p pages H _ IH]; simpl; [constructor|].
  rewrite H. destruct (map page_text pages) eqn:M; [constructor|].
  simpl. constructor; [reflexivity|exact IH].
Qed.

Lemma readable_row f : readable pdf_pages f -> exists row, row_of pdf_pages f row.
Proof.
  intros [pages Hp].
  destruct (extract_fields_total (Py.join [LF] (map page_text pages))
              (file_name f)) as (row & E & H).
  exists row, pages; repeat split; auto; [tauto|].
  intros B. apply blank_pages in B.
  rewrite (blank_text_null_record _ (file_name f) B) in E. congruence.
Qed.

Lemma process_readable files : forall results,
  Forall (readable pdf_pages) files ->
  exists rows,
    process pdf_pages files results = Ok (results ++ rows)
    /\ Forall2 (row_of pdf_pages) files rows.
Proof.
  induction files as [|f files IH]; intros results H; simpl.
  - exists []; rewrite app_nil_r; auto.
  - inversion H; subst.
    destruct (readable_row f H2) as (row & pages & Hp & E & R).
    unfold extract_text_from_pdf_bytes. rewrite Hp. cbn [bind].
    rewrite E. cbn [bind].
    destruct (IH (results ++ [row]) H3) as (rows & -> & F).
    exists (row :: rows); rewrite <- app_assoc; split; auto.
    constructor; auto. exists pages; auto.
Qed.

Lemma process_unreadable before f after e : forall results,
  Forall (readable pdf_pages) before -> pdf_pages (read f) = Raise e ->
  process pdf_pages (before ++ f :: after) results = Raise e.
Proof.
  induction before as [|g before IH]; intros results H Hf; simpl.
  - unfold extract_text_from_pdf_bytes. rewrite Hf. reflexivity.
  - inversion H; subst.
    destruct (readable_row g H2) as (row & pages & Hp & E & R).
    unfold extract_text_from_pdf_bytes. rewrite Hp. cbn [bind].
    rewrite E. cbn [bind]. apply IH; auto.
Qed.

End BatchFacts.

(** C3 (as amended). When the reader returns the pages of every file
    of the batch, the loop produces one record per file, in input
    order, each with its file name; a file none of whose pages has
    text gives the record with every other field null, and the loop
    goes on.  When the reader raises on a file, the loop raises at
    that file: nothing catches the exception, and no record is
    returned. *)
Theorem batch_processing
    (pdf_pages : list Byte.byte -> result (list (option text)))
    (files : list uploaded_file) :
  (Forall (readable pdf_pages) files ->
   exists rows,
     process pdf_pages files [] = Ok rows
     /\ Forall2 (row_of pdf_pages) files rows)
  /\ (forall before f after e,
        files = before ++ f :: after ->
        Forall (readable pdf_pages) before ->
        pdf_pages (read f) = Raise e ->
        process pdf_pages files [] = Raise e).
Proof.
  split.
  - intros H. apply (process_readable pdf_pages files [] H).
  - intros before f after e -> H Hf. apply process_unreadable; auto.
Qed.

Lemma batch_processing_witness :
  (exists rows,
     process reader [mkFile [Byte.x25] (str "1.pdf")] [] = Ok rows
     /\ Forall2 (row_of reader) [mkFile [Byte.x25] (str "1.pdf")] rows)
  /\ process reader batch [] = Raise PdfError.
Proof.
  split.
  - apply (proj1 (batch_processing reader [mkFile [Byte.x25] (str "1.pdf")])).
    repeat constructor. exists [None]; reflexivity.
  - apply (proj2 (batch_processing reader batch)
             [mkFile [Byte.x25] (str "1.pdf")] (mkFile [] (str "2.pdf"))
             [mkFile [Byte.x25] (str "3.pdf")] PdfError).
    + reflexivity.
    + repeat constructor. exists [None]; reflexivity.
    + reflexivity.
Defined.

(** C3, as stated, fails: the second file of the batch cannot be
    read, and the loop returns no record at all, although the first
    and the third file can. *)
Lemma batch_stops_counterexample :
  readable reader (mkFile [Byte.x25] (str "1.pdf"))
  /\ readable reader (mkFile [Byte.x25] (str "3.pdf"))
  /\ process reader batch [] = Raise PdfError
  /\ on_extract reader batch = Raise PdfError
  /\ ~ exists rows,
         process reader batch [] = Ok rows /\ length rows = length batch.
Proof.
  split; [exists [None]; reflexivity|].
  split; [exists [None]; reflexivity|].
  split; [reflexivity|]. split; [reflexivity|].
  intros (rows & H & _). discriminate.
Qed.

(** * Further properties of the code *)

(** ** The text normalizer *)

Module LineFacts.
Import PyFacts ScanFacts BlankFacts Fields.

Lemma substring_refl s : substring s s.
Proof. exists [], []; rewrite app_nil_r; reflexivity. Qed.

Lemma substring_trans a b c : substring a b -> substring b c -> substring a c.
Proof.
  intros (p1 & q1 & ->) (p2 & q2 & ->).
  exists (p2 ++ p1), (q1 ++ q2). rewrite <- !app_assoc; reflexivity.
Qed.

Lemma substring_Forall (P : ascii -> Prop) a b :
  substring a b -> Forall P b -> Forall P a.
Proof.
  intros (p & q & ->) H.
  apply Forall_app in H as [_ H]. apply Forall_app in H as [H _]; auto.
Qed.

Lemma rstrip_prefix s : exists y, s = Py.rstrip s ++ y.
Proof.
  unfold Py.rstrip. destruct (lstrip_suffix (rev s)) as [x Hx].
  exists (rev x). rewrite <- rev_app_distr, <- Hx, rev_involutive; auto.
Qed.

Lemma strip_substring s : substring (Py.strip s) s.
Proof.
  unfold Py.strip.
  destruct (lstrip_suffix s) as [x Hx].
  destruct (rstrip_prefix (Py.lstrip s)) as [y Hy].
  exists x, y. rewrite <- Hy; auto.
Qed.

Lemma strip_last s r c : Py.strip s = r ++ [c] -> Chr.is_space c = false.
Proof.
  unfold Py.strip, Py.rstrip. intros H.
  apply (f_equal (@rev _)) in H.
  rewrite rev_involutive, rev_app_distr in H. simpl in H.
  eapply lstrip_head; eauto.
Qed.

Lemma strip_first s c r : Py.strip s = c :: r -> Chr.is_space c = false.
Proof.
  intros H. unfold Py.strip in H.
  destruct (rstrip_prefix (Py.lstrip s)) as [y Hy].
  rewrite H in Hy. eapply lstrip_head; eauto.
Qed.

Lemma strip_visible_ends s : Py.strip s <> [] -> visible_ends (Py.strip s).
Proof.
  intros H. split.
  - destruct (Py.strip s) as [|c r] eqn:E; [contradiction|].
    exists c, r; split; auto. eapply strip_first; eauto.
  - destruct (exists_last H) as (r & c & E).
    exists c, r; split; auto. eapply strip_last; eauto.
Qed.

(** The lines [splitlines] cuts stand in the text and hold no line
    break. *)
Lemma splitlines_from_lines n : forall s acc,
  length s <= n ->
  Forall (fun c => Chr.is_linebreak c = false) acc ->
  Forall (fun ln => substring ln (rev acc ++ s)
                    /\ Forall (fun c => Chr.is_linebreak c = false) ln)
         (Py.splitlines_from acc s).
Proof.
  induction n as [|n IH]; intros s acc Hn Ha.
  - destruct s; [|simpl in Hn; lia]. simpl. rewrite app_nil_r.
    destruct acc; constructor; auto.
    split; [apply substring_refl|apply Forall_rev; auto].
  - destruct s as [|c s]; simpl.
    { rewrite app_nil_r. destruct acc; constructor; auto.
      split; [apply substring_refl|apply Forall_rev; auto]. }
    simpl in Hn.
    assert (Hext : forall s', (exists x, c :: s = x ++ s') ->
              length s' <= n ->
              Forall (fun ln => substring ln (rev acc ++ c :: s)
                        /\ Forall (fun c => Chr.is_linebreak c = false) ln)
                     (Py.splitlines_from [] s')).
    { intros s' [x Hx] Hs'.
      eapply Forall_impl; [|apply (IH s' []); auto].
      cbn beta; intros ln [Hsub Hl]; split; auto.
      eapply substring_trans; [exact Hsub|].
      exists (rev acc ++ x), []. rewrite Hx, app_nil_r, <- app_assoc.
      reflexivity. }
    destruct (Chr.is_linebreak c) eqn:E.
    + constructor.
      * split; [|apply Forall_rev; auto].
        exists [], (c :: s); reflexivity.
      * destruct s as [|d s'].
        { apply Hext; [exists [c]; reflexivity|simpl; lia]. }
        simpl in Hn.
        destruct (Ascii.eqb c CR && Ascii.eqb d LF).
        -- apply Hext; [exists [c; d]; reflexivity|lia].
        -- apply Hext; [exists [c]; reflexivity|simpl; lia].
    + replace (rev acc ++ c :: s) with (rev (c :: acc) ++ s)
        by (simpl; rewrite <- app_assoc; reflexivity).
      apply IH; [lia|constructor; auto].
Qed.

Lemma normalize_length t : length (normalize t) = length t.
Proof. apply length_map. Qed.

Lemma normalize_no_CR t : ~ In CR (normalize t).
Proof.
  unfold normalize, Py.replace. rewrite in_map_iff.
  intros (c & H & _). destruct (Ascii.eqb_spec c CR); [discriminate|auto].
Qed.

Lemma trimmed_lines_spec s :
  Forall (fun ln => substring ln s /\ visible_ends ln
                    /\ Forall (fun c => Chr.is_linebreak c = false) ln)
         (trimmed_lines s).
Proof.
  unfold trimmed_lines, Py.splitlines.
  pose proof (splitlines_from_lines (length s) s [] (le_n _) (Forall_nil _))
    as H.
  simpl in H.
  induction H as [|ln lines [Hsub Hl] _ IH]; simpl; [constructor|].
  destruct (Py.text_eqb (Py.strip ln) []) eqn:E; simpl; auto.
  apply text_eqb_neq in E.
  constructor; auto. split; [|split].
  - eapply substring_trans; [apply strip_substring|auto].
  - apply strip_visible_ends; auto.
  - eapply substring_Forall; [apply strip_substring|auto].
Qed.

End LineFacts.

(** X1. The normalizer keeps the length of the text and leaves no
    carriage return in it; every line of the line view stands in the
    normalized text as it is, begins and ends with a character that
    is no white space (so it is not empty), and holds no line
    break. *)
Theorem normalizer_lines (t : text) :
  length (normalize t) = length t
  /\ ~ In CR (normalize t)
  /\ Forall (fun ln =>
               Fields.substring ln (normalize t)
               /\ Fields.visible_ends ln
               /\ Forall (fun c => Chr.is_linebreak c = false) ln)
            (trimmed_lines (normalize t)).
Proof.
  split; [apply LineFacts.normalize_length|].
  split; [apply LineFacts.normalize_no_CR|].
  apply LineFacts.trimmed_lines_spec.
Qed.

(** ** The lines of a document of several pages *)

Module PageFacts.
Import PyFacts ScanFacts BlankFacts Fields LineFacts.

Lemma trim_view_app a b : trim_view (a ++ b) = trim_view a ++ trim_view b.
Proof. unfold trim_view. rewrite filter_app, map_app; reflexivity. Qed.

Lemma trim_view_cons x l : trim_view (x :: l) = trim_view [x] ++ trim_view l.
Proof. apply (trim_view_app [x] l). Qed.

Lemma trim_view_flush acc :
  trim_view match acc with [] => [] | _ => [rev acc] end
  = trim_view [rev acc].
Proof. destruct acc; reflexivity. Qed.

Lemma normalize_app a b : normalize (a ++ b) = normalize a ++ normalize b.
Proof. apply map_app. Qed.

Lemma normalize_join ps :
  normalize (Py.join [LF] ps) = Py.join [LF] (map normalize ps).
Proof.
  induction ps as [|p [|q ps] IH]; auto.
  change (Py.join [LF] (p :: q :: ps)) with (p ++ [LF] ++ Py.join [LF] (q :: ps)).
  rewrite !normalize_app, IH. reflexivity.
Qed.

(** In a text without carriage return a page break closes the line
    being read and nothing else. *)
Lemma splitlines_page_break a : forall acc b,
  ~ In CR a ->
  trim_view (Py.splitlines_from acc (a ++ LF :: b))
  = trim_view (Py.splitlines_from acc a)
    ++ trim_view (Py.splitlines_from [] b).
Proof.
  assert (Step : forall c acc s,
            Chr.is_linebreak c = true -> Ascii.eqb c CR = false ->
            Py.splitlines_from acc (c :: s)
            = rev acc :: Py.splitlines_from [] s).
  { intros c acc s Hb Hc. cbn [Py.splitlines_from]. rewrite Hb, Hc.
    destruct s; reflexivity. }
  induction a as [|c a IH]; intros acc b Ha.
  - cbn [app]. rewrite Step by reflexivity.
    cbn [Py.splitlines_from]. rewrite trim_view_flush.
    apply trim_view_cons.
  - assert (Hc : Ascii.eqb c CR = false).
    { destruct (Ascii.eqb_spec c CR); auto.
      exfalso; apply Ha; left; auto. }
    assert (Ha' : ~ In CR a) by (intros K; apply Ha; right; auto).
    cbn [app].
    destruct (Chr.is_linebreak c) eqn:E.
    + rewrite !Step by auto.
      rewrite trim_view_cons, IH by auto.
      rewrite app_assoc. f_equal.
      symmetry. apply trim_view_cons.
    + cbn [Py.splitlines_from]. rewrite E. apply IH; auto.
Qed.

Lemma trimmed_lines_page_break a b :
  ~ In CR a ->
  trimmed_lines (a ++ LF :: b) = trimmed_lines a ++ trimmed_lines b.
Proof. intros H. apply (splitlines_page_break a [] b H). Qed.

Lemma trimmed_lines_join ps :
  Forall (fun p => ~ In CR p) ps ->
  trimmed_lines (Py.join [LF] ps) = concat (map trimmed_lines ps).
Proof.
  induction ps as [|p [|q ps] IH]; intros H.
  - reflexivity.
  - simpl. rewrite app_nil_r; reflexivity.
  - inversion H; subst.
    change (Py.join [LF] (p :: q :: ps))
      with (p ++ LF :: Py.join [LF] (q :: ps)).
    rewrite trimmed_lines_page_break, IH by auto. reflexivity.
Qed.

End PageFacts.

(** X2. When the reader returns the pages of a document, the text of
    the document is returned, and its line view is the line views of
    its pages one after the other: a page break ends a line and adds
    none, and a page without text adds none. *)
Theorem lines_of_pages
    (pdf_pages : list Byte.byte -> result (list (option text)))
    (file_bytes : list Byte.byte) (pages : list (option text)) :
  pdf_pages file_bytes = Ok pages ->
  exists t,
    extract_text_from_pdf_bytes pdf_pages file_bytes = Ok t
    /\ trimmed_lines (normalize t)
       = concat (map (fun p => trimmed_lines (normalize (page_text p)))
                     pages).
Proof.
  intros H. unfold extract_text_from_pdf_bytes. rewrite H. cbn [bind].
  eexists; split; [reflexivity|].
  rewrite PageFacts.normalize_join, PageFacts.trimmed_lines_join.
  - rewrite !map_map; reflexivity.
  - apply Forall_forall. intros p Hp.
    apply in_map_iff in Hp as (q & <- & _).
    apply LineFacts.normalize_no_CR.
Qed.

Lemma lines_of_pages_witness :
  exists t,
    extract_text_from_pdf_bytes MoreExamples.two_pages [] = Ok t
    /\ trimmed_lines (normalize t)
       = concat (map (fun p => trimmed_lines (normalize (page_text p)))
                     [Some (str "Name: Jane Doe" ++ [CR; LF] ++ str "Pune");
                      None]).
Proof.
  apply (lines_of_pages MoreExamples.two_pages []). reflexivity.
Defined.

(** ** The fields found by a whole-text pattern *)

Module FieldFacts.
Import Re ReSpec ReFacts Shape ShapeFacts RunFacts PyFacts ScanFacts
  BlankFacts AccountFacts Fields.

(** When the matches of [r] are the texts of a shape, and one text
    of the shape only can start at a place, [search] finds the
    leftmost text of the shape, and nothing when there is none. *)
Lemma search_leftmost r (shape : text -> text -> text -> Prop) s :
  (forall pre m post,
     denote r (last_of None pre) m post <-> shape pre m post) ->
  (forall pre m m' post post',
     shape pre m post -> shape pre m' post' -> m ++ post = m' ++ post' ->
     m = m') ->
  (search r s = None <->
   ~ exists pre v post, s = pre ++ v ++ post /\ shape pre v post)
  /\ (forall v,
        search r s = Some v <-> exists pre post, leftmost shape s pre v post).
Proof.
  intros Hd Hu.
  assert (None_iff : search r s = None <->
            ~ exists pre v post, s = pre ++ v ++ post /\ shape pre v post).
  { rewrite search_none. split; intros H (pre & v & post & Hs & K); apply H;
      exists pre, v, post; split; auto; apply Hd; auto. }
  assert (Fwd : forall v, search r s = Some v ->
            exists pre post, leftmost shape s pre v post).
  { intros v H. apply search_some in H as (pre & post & [Hs D] & Hmin).
    exists pre, post; split; auto. split; [apply Hd; auto|].
    intros pre' v' post' Hs' K. apply (Hmin pre' v' post').
    split; auto. apply Hd; auto. }
  split; auto. intros v; split; auto.
  intros (pre & post & Hs & K & Hmin).
  destruct (search r s) as [v0|] eqn:E.
  - destruct (Fwd v0 eq_refl) as (pre0 & post0 & Hs0 & K0 & Hmin0).
    assert (L : length pre0 = length pre).
    { apply Nat.le_antisymm; [eapply Hmin0|eapply Hmin]; eauto. }
    rewrite Hs in Hs0.
    destruct (app_same_length _ _ _ _ Hs0 (eq_sym L)) as [<- Q].
    f_equal. symmetry. eapply Hu; eauto.
  - exfalso. apply None_iff; eauto 6.
Qed.

Lemma AZ09_word c : AZ09 c = true -> Chr.is_word c = true.
Proof.
  unfold AZ09; intros H. apply orb_prop in H as [H | H];
    auto using AZ_word, digit_word.
Qed.

Lemma first_word cls n m tl :
  (forall c, cls c = true -> Chr.is_word c = true) ->
  forallb cls m = true -> length m = S n -> word_after (m ++ tl) = true.
Proof.
  intros Hw Hm Hl. destruct m as [|c m]; [discriminate|].
  simpl in *. apply andb_prop in Hm as [Hc _]; auto.
Qed.

(** [\b[A-Z]{5}[0-9]{4}[A-Z]\b] *)
Theorem pan_denote prev m rest :
  denote PAN_REGEX prev m rest <->
  pan_shape m /\ word_before prev = false /\ word_after rest = false.
Proof.
  unfold PAN_REGEX, pan_shape; cbn [cat denote]; split.
  - intros (m1 & m2 & -> & [-> B1] & l & x & -> & L & d & y & -> & D
            & u' & z & -> & U & -> & B2).
    apply denote_Times in L as [Ll Ln], D as [Dd Dn].
    apply denote_Cls in U as (u & -> & Hu).
    rewrite app_nil_r in *. cbn [app last_of] in *.
    unfold at_boundary in *. cbn [word_before] in B2.
    rewrite (AZ_word _ Hu) in B2.
    rewrite <- app_assoc, (first_word Chr.is_AZ 4 l) in B1
      by auto using AZ_word.
    destruct (word_before prev), (word_after rest); simpl in *;
      try discriminate.
    split; auto. exists l, d, u; auto 7.
  - intros ((l & d & u & -> & Ll & Ln & Dd & Dn & Hu) & Hp & Hr).
    exists [], (l ++ d ++ [u]); split; [reflexivity|].
    split.
    { split; auto. unfold at_boundary.
      rewrite <- app_assoc, (first_word Chr.is_AZ 4 l), Hp
        by auto using AZ_word.
      reflexivity. }
    cbn [last_of].
    exists l, (d ++ [u]); split; auto.
    split; [apply denote_Times; auto|].
    exists d, [u]; split; auto.
    split; [apply denote_Times; auto|].
    exists [u], []; split; auto.
    split; [apply denote_Cls; eauto|].
    split; auto. unfold at_boundary. cbn [last_of word_before].
    rewrite (AZ_word _ Hu), Hr; reflexivity.
Qed.

(** [\b[A-Z]{4}0[A-Z0-9]{6}\b] *)
Theorem ifsc_denote prev m rest :
  denote IFSC_REGEX prev m rest <->
  ifsc_shape m /\ word_before prev = false /\ word_after rest = false.
Proof.
  unfold IFSC_REGEX, ifsc_shape; cbn [cat denote]; split.
  - intros (m1 & m2 & -> & [-> B1] & b & x & -> & Bk & o & y & -> & O
            & k & z & -> & K & -> & B2).
    apply denote_Times in Bk as [Bb Bn], K as [Kk Kn].
    apply denote_Lit in O as ->.
    rewrite app_nil_r in *. cbn [app last_of] in *.
    unfold at_boundary in *.
    rewrite (last_of_word AZ09 k) in B2;
      [|apply AZ09_word|intros ->; discriminate|exact Kk].
    rewrite <- app_assoc, (first_word Chr.is_AZ 3 b) in B1
      by auto using AZ_word.
    destruct (word_before prev), (word_after rest); simpl in *;
      try discriminate.
    split; auto. exists b, k; auto 7.
  - intros ((b & k & -> & Bb & Bn & Kk & Kn) & Hp & Hr).
    exists [], (b ++ chr "0" :: k); split; [reflexivity|].
    split.
    { split; auto. unfold at_boundary.
      rewrite <- app_assoc, (first_word Chr.is_AZ 3 b), Hp
        by auto using AZ_word.
      reflexivity. }
    cbn [last_of].
    exists b, (chr "0" :: k); split; auto.
    split; [apply denote_Times; auto|].
    exists [chr "0"], k; split; auto.
    split; [apply denote_Lit; auto|].
    exists k, []; rewrite app_nil_r; split; auto.
    split; [apply denote_Times; auto|].
    split; auto. unfold at_boundary.
    rewrite (last_of_word AZ09 k);
      [|apply AZ09_word|intros ->; discriminate|exact Kk].
    rewrite Hr; reflexivity.
Qed.

Lemma pan_shape_length m : pan_shape m -> length m = 10.
Proof.
  intros (l & d & u & -> & _ & Ll & _ & Ld & _).
  rewrite !length_app, Ll, Ld; reflexivity.
Qed.

Lemma ifsc_shape_length m : ifsc_shape m -> length m = 11.
Proof.
  intros (b & k & -> & _ & Lb & _ & Lk).
  rewrite length_app; simpl. rewrite Lb, Lk; reflexivity.
Qed.

Lemma same_length_prefix (m m' post post' : text) :
  length m = length m' -> m ++ post = m' ++ post' -> m = m'.
Proof.
  intros L E. destruct (app_same_length _ _ _ _ E L); auto.
Qed.

End FieldFacts.

(** X3. The PAN field is the leftmost text of the normalized text
    that is five capital letters, four digits and one capital letter
    with no word character directly before or after it; it is kept
    as found and has ten characters; it is null exactly when the
    text has no such run. *)
Theorem pan_field (t fn : text) :
  exists r,
    extract_fields_rule_based t fn = Ok r
    /\ let found pre v post := Fields.pan_shape v /\ Fields.alone pre post in
       (pan r = None <->
        ~ exists pre v post,
            normalize t = pre ++ v ++ post /\ found pre v post)
       /\ (forall v,
             pan r = Some v <->
             exists pre post, Fields.leftmost found (normalize t) pre v post)
       /\ (forall v, pan r = Some v -> length v = 10).
Proof.
  destruct (extract_fields_total t fn) as (r & E & _ & _ & Hp & _).
  exists r; split; auto. cbn zeta. rewrite Hp. unfold first_match.
  destruct (FieldFacts.search_leftmost PAN_REGEX
              (fun pre v post => Fields.pan_shape v /\ Fields.alone pre post)
              (normalize t)) as [N S].
  - intros pre m post. rewrite FieldFacts.pan_denote.
    unfold Fields.alone; tauto.
  - intros pre m m' post post' [Sh _] [Sh' _].
    apply FieldFacts.same_length_prefix.
    rewrite (FieldFacts.pan_shape_length _ Sh),
      (FieldFacts.pan_shape_length _ Sh'); reflexivity.
  - split; [exact N|]. split; [exact S|].
    intros v H. apply S in H as (pre & post & _ & [Sh _] & _).
    apply FieldFacts.pan_shape_length; auto.
Qed.

Lemma pan_field_witness :
  exists r,
    extract_fields_rule_based (str "PAN Number: ABCDE1234F") pdf = Ok r
    /\ length (str "ABCDE1234F") = 10.
Proof.
  destruct (pan_field (str "PAN Number: ABCDE1234F") pdf)
    as (r & E & _ & _ & H).
  exists r; split; [exact E|].
  apply H. vm_compute in E. inversion E. reflexivity.
Defined.

(** X4. The IFSC field is the leftmost text of the normalized text
    that is four capital letters, a zero and six capital letters or
    digits with no word character directly before or after it; it is
    kept as found and has eleven characters; it is null exactly when
    the text has no such run. *)
Theorem ifsc_field (t fn : text) :
  exists r,
    extract_fields_rule_based t fn = Ok r
    /\ let found pre v post := Fields.ifsc_shape v /\ Fields.alone pre post in
       (ifsc r = None <->
        ~ exists pre v post,
            normalize t = pre ++ v ++ post /\ found pre v post)
       /\ (forall v,
             ifsc r = Some v <->
             exists pre post, Fields.leftmost found (normalize t) pre v post)
       /\ (forall v, ifsc r = Some v -> length v = 11).
Proof.
  destruct (extract_fields_total t fn) as (r & E & _ & _ & _ & _ & Hi & _).
  exists r; split; auto. cbn zeta. rewrite Hi. unfold first_match.
  destruct (FieldFacts.search_leftmost IFSC_REGEX
              (fun pre v post => Fields.ifsc_shape v /\ Fields.alone pre post)
              (normalize t)) as [N S].
  - intros pre m post. rewrite FieldFacts.ifsc_denote.
    unfold Fields.alone; tauto.
  - intros pre m m' post post' [Sh _] [Sh' _].
    apply FieldFacts.same_length_prefix.
    rewrite (FieldFacts.ifsc_shape_length _ Sh),
      (FieldFacts.ifsc_shape_length _ Sh'); reflexivity.
  - split; [exact N|]. split; [exact S|].
    intros v H. apply S in H as (pre & post & _ & [Sh _] & _).
    apply FieldFacts.ifsc_shape_length; auto.
Qed.

Lemma ifsc_field_witness :
  exists r,
    extract_fields_rule_based (str "IFSC: HDFC0001234") pdf = Ok r
    /\ length (str "HDFC0001234") = 11.
Proof.
  destruct (ifsc_field (str "IFSC: HDFC0001234") pdf)
    as (r & E & _ & _ & H).
  exists r; split; [exact E|].
  apply H. vm_compute in E. inversion E. reflexivity.
Defined.

(** ** The e-mail address *)

Module EmailFacts.
Import Re ReSpec ReFacts Shape ShapeFacts RunFacts PyFacts ScanFacts
  BlankFacts AccountFacts Fields FieldFacts.

(** [[a-zA-Z0-9._%+-]+@[a-zA-Z0-9.-]+\.[a-zA-Z]{2,}] *)
Theorem email_denote prev m rest :
  denote EMAIL_REGEX prev m rest <-> email_shape m.
Proof.
  unfold EMAIL_REGEX, email_shape; cbn [cat denote]; split.
  - intros (loc & x & -> & (Hl & Nl & _) & a & y & -> & A
            & dom & z & -> & (Hd & Nd & _) & o & tld & -> & O
            & (Ht & Nt & _)).
    apply denote_Lit in A as ->. apply denote_Lit in O as ->.
    exists loc, dom, tld. repeat split; auto.
    + intros ->; simpl in Nl; lia.
    + intros ->; simpl in Nd; lia.
  - intros (loc & dom & tld & -> & Hl & Nl & Hd & Nd & Ht & Nt).
    exists loc, (chr "@" :: dom ++ chr "." :: tld); split; auto.
    split.
    { repeat split; auto. destruct loc; [contradiction|simpl; lia]. }
    exists [chr "@"], (dom ++ chr "." :: tld); split; auto.
    split; [apply denote_Lit; auto|].
    exists dom, (chr "." :: tld); split; auto.
    split.
    { repeat split; auto. destruct dom; [contradiction|simpl; lia]. }
    exists [chr "."], tld; split; auto.
    split; [apply denote_Lit; auto|].
    repeat split; auto.
Qed.

(** The greedy repetition stops at the longest run after which the
    rest of the pattern matches. *)
Lemma rep_first cls s : forall lo hi prev k x,
  rep cls lo hi prev s k = Some x ->
  exists m rest,
    s = m ++ rest /\ forallb cls m = true /\ lo <= length m
    /\ within hi (length m) /\ k (last_of prev m) rest = Some x
    /\ forall m' rest',
         s = m' ++ rest' -> forallb cls m' = true -> lo <= length m' ->
         within hi (length m') -> length m < length m' ->
         k (last_of prev m') rest' = None.
Proof.
  induction s as [|c s IH]; intros lo hi prev k x H.
  - apply rep_sound in H as (m & rest & Hs & Hm & Hlo & Hhi & Hk).
    symmetry in Hs. apply app_eq_nil in Hs as [-> ->].
    exists [], []; repeat split; auto.
    intros m' rest' Hs' _ _ _ L. symmetry in Hs'.
    apply app_eq_nil in Hs' as [-> _]. simpl in L; lia.
  - cbn [rep] in H.
    assert (Hstop : (if lo =? 0 then k prev (c :: s) else None) = Some x ->
              (forall m0 rest', s = m0 ++ rest' ->
                 forallb cls (c :: m0) = true -> lo <= S (length m0) ->
                 within hi (S (length m0)) ->
                 k (last_of (Some c) m0) rest' = None) ->
              exists m rest,
                c :: s = m ++ rest /\ forallb cls m = true /\ lo <= length m
                /\ within hi (length m) /\ k (last_of prev m) rest = Some x
                /\ forall m' rest',
                     c :: s = m' ++ rest' -> forallb cls m' = true ->
                     lo <= length m' -> within hi (length m') ->
                     length m < length m' ->
                     k (last_of prev m') rest' = None).
    { intros Hs Hno. destruct (Nat.eqb_spec lo 0) as [->|]; [|discriminate].
      exists [], (c :: s); repeat split; auto.
      { destruct hi; simpl; lia. }
      intros m' rest' Hs' Hm' Hlo' Hhi' L.
      destruct m' as [|c' m0]; [simpl in L; lia|].
      simpl in Hs'. injection Hs' as <- Hs'.
      apply (Hno m0 rest'); auto. }
    destruct (cls c && room hi) eqn:E.
    + apply andb_prop in E as [Ec Er].
      destruct (rep cls (pred lo) (option_map pred hi) (Some c) s k) eqn:R.
      * inversion H; subst t.
        apply IH in R as (m & rest & -> & Hm & Hlo & Hhi & Hk & Hmax).
        exists (c :: m), rest; simpl; rewrite Ec, Hm.
        repeat split; auto; [lia|apply room_within; auto|].
        intros m' rest' Hs' Hm' Hlo' Hhi' L.
        destruct m' as [|c' m0]; [simpl in L; lia|].
        simpl in Hs'. injection Hs' as <- Hs'. simpl in *.
        apply andb_prop in Hm' as [_ Hm0].
        apply (Hmax m0 rest'); auto; [lia|apply within_pred; auto|lia].
      * apply Hstop; auto.
        intros m0 rest' Hs' Hm' Hlo' Hhi'.
        destruct (k (last_of (Some c) m0) rest') eqn:K; auto.
        simpl in Hm'. apply andb_prop in Hm' as [_ Hm0].
        destruct (rep_complete cls m0 (pred lo) (option_map pred hi)
                    (Some c) rest' k t Hm0) as [y Hy];
          [lia|apply within_pred; auto|auto|].
        rewrite <- Hs' in Hy. congruence.
    + apply Hstop; auto.
      intros m0 rest' Hs' Hm' Hlo' Hhi'.
      simpl in Hm'. apply andb_prop in Hm' as [Hc _].
      rewrite Hc, (within_room _ _ Hhi') in E. discriminate.
Qed.

Lemma exec_Lit c prev s k x :
  exec (Lit c) prev s k = Some x ->
  exists s', s = c :: s' /\ k (Some c) s' = Some x.
Proof.
  intros H. apply exec_sound in H as (m & rest & -> & D & Hk).
  apply denote_Lit in D as ->.
  exists rest; split; [reflexivity|exact Hk].
Qed.

(** A run of a class followed by a character outside it is cut in
    one way only. *)
Lemma run_unique (cls : ascii -> bool) a : forall a' x x' r r',
  a ++ x :: r = a' ++ x' :: r' ->
  forallb cls a = true -> forallb cls a' = true ->
  cls x = false -> cls x' = false ->
  a = a' /\ r = r'.
Proof.
  induction a as [|c a IH]; intros [|c' a'] x x' r r' E Ha Ha' Hx Hx';
    simpl in *.
  - injection E as _ E; auto.
  - injection E as -> E. apply andb_prop in Ha' as [K _]; congruence.
  - injection E as -> E. apply andb_prop in Ha as [K _]; congruence.
  - injection E as -> E.
    apply andb_prop in Ha as [_ Ha]. apply andb_prop in Ha' as [_ Ha'].
    destruct (IH _ _ _ _ _ E Ha Ha' Hx Hx') as [-> ->]; auto.
Qed.

Lemma at_not_local : local_chr (chr "@") = false.
Proof. reflexivity. Qed.

Lemma dot_not_letter : letter "."%char = false.
Proof. reflexivity. Qed.

(** The match at a place is the longest text of the shape that starts
    there. *)
Lemma email_longest prev s rest :
  match_at EMAIL_REGEX prev s = Some rest ->
  exists m,
    s = m ++ rest /\ email_shape m
    /\ forall m' rest', s = m' ++ rest' -> email_shape m' ->
                        length m' <= length m.
Proof.
  unfold match_at, EMAIL_REGEX. cbn [cat exec]. intros H.
  apply rep_sound in H as (loc & s1 & -> & Hl & Nl & _ & H).
  apply exec_Lit in H as (s2 & -> & H).
  apply rep_first in H as (dom & s3 & -> & Hd & Nd & _ & H & Dmax).
  apply exec_Lit in H as (s4 & -> & H).
  apply rep_first in H as (tld & s5 & -> & Ht & Nt & _ & H & Tmax).
  injection H as ->.
  exists (loc ++ chr "@" :: dom ++ chr "." :: tld). split.
  { rewrite <- !app_assoc. simpl. rewrite <- !app_assoc. reflexivity. }
  split.
  { exists loc, dom, tld; repeat split; auto.
    - intros ->; simpl in Nl; lia.
    - intros ->; simpl in Nd; lia. }
  intros m' rest' Hs (loc' & dom' & tld' & -> & Hl' & Nl' & Hd' & Nd' & Ht' & Nt').
  rewrite <- !app_assoc in Hs. simpl in Hs.
  destruct (run_unique local_chr loc loc' _ _ _ _ Hs Hl Hl'
              at_not_local at_not_local) as [<- Hs2].
  rewrite !length_app. simpl. rewrite !length_app. simpl.
  rewrite <- !app_assoc in Hs2. simpl in Hs2.
  assert (Tle : forall w r, tld ++ rest = w ++ r -> forallb letter w = true ->
                  2 <= length w -> length w <= length tld).
  { intros w r E Hw Nw.
    destruct (Nat.le_gt_cases (length w) (length tld)) as [|L]; auto.
    specialize (Tmax w r E Hw Nw I L). discriminate. }
  destruct (Nat.lt_trichotomy (length dom) (length dom')) as [L | [L | L]].
  - exfalso.
    assert (Dn : 1 <= length dom') by lia.
    specialize (Dmax dom' (chr "." :: tld' ++ rest') Hs2 Hd' Dn I L).
    cbn beta in Dmax.
    destruct (exec_complete
                (Seq (Lit (chr ".")) (Rep (fun c => Chr.is_az c || Chr.is_AZ c) 2 None))
                (last_of (Some (chr "@")) dom') (chr "." :: tld') rest'
                (fun _ r => Some r) rest') as [y Hy]; auto.
    { exists [chr "."], tld'; split; auto.
      split; [apply denote_Lit; auto|]. repeat split; auto. }
    cbn [exec app] in Hy. cbn [app] in Dmax. congruence.
  - destruct (app_same_length _ _ _ _ Hs2 L) as [_ E].
    injection E as E.
    specialize (Tle tld' rest' E Ht' Nt'). lia.
  - apply app_eq_app in Hs2 as [e [[He1 He2] | [He1 He2]]].
    + destruct e as [|d e].
      { rewrite app_nil_r in He1. subst; lia. }
      simpl in He2. injection He2 as Hdot He2. subst d.
      rewrite He1, length_app. simpl.
      symmetry in He2.
      apply app_eq_app in He2 as [f [[Hf1 Hf2] | [Hf1 Hf2]]].
      * rewrite Hf1, length_app. lia.
      * destruct f as [|g f].
        { rewrite app_nil_r in Hf1. subst; lia. }
        simpl in Hf2. injection Hf2 as Hg Hf2. subst g.
        rewrite Hf1, forallb_app in Ht'. cbn [forallb] in Ht'.
        rewrite dot_not_letter in Ht'. cbn [andb] in Ht'.
        rewrite andb_false_r in Ht'. discriminate.
    + rewrite He1, length_app in L. lia.
Qed.

(** [search] with the match kept: the match at the leftmost place
    that has one. *)
Lemma search_from_match r s : forall prev v,
  search_from r prev s = Some v ->
  exists pre post,
    s = pre ++ v ++ post
    /\ match_at r (last_of prev pre) (v ++ post) = Some post
    /\ forall p m q, s = p ++ m ++ q -> denote r (last_of prev p) m q ->
                     length pre <= length p.
Proof.
  induction s as [|c s IH]; intros prev v H; simpl in H.
  - destruct (match_at r prev []) eqn:E; [|discriminate].
    inversion H; subst v; clear H.
    pose proof E as E'.
    apply match_at_hit in E as (m & Hm & D & ->).
    exists [], t; simpl. rewrite <- Hm. repeat split; auto. intros; lia.
  - destruct (match_at r prev (c :: s)) eqn:E.
    + inversion H; subst v; clear H.
      pose proof E as E'.
      apply match_at_hit in E as (m & Hm & D & ->).
      exists [], t; simpl. rewrite <- Hm. repeat split; auto. intros; lia.
    + apply IH in H as (pre & post & -> & M & Hmin).
      exists (c :: pre), post; simpl; repeat split; auto.
      intros p m' q Hs D'.
      destruct p as [|c' p]; simpl in *.
      * exfalso; eapply match_at_none; eauto.
      * inversion Hs; subst c'.
        apply le_n_S; eapply Hmin; eauto.
Qed.

End EmailFacts.

(** X5. The e-mail field is found at the leftmost place of the
    normalized text where a text of the shape local part, [@],
    domain, dot and two letters or more starts, and it is the longest
    text of that shape starting there; it is kept as found; it is
    null exactly when the text holds no text of that shape. *)
Theorem email_field (t fn : text) :
  exists r,
    extract_fields_rule_based t fn = Ok r
    /\ let found (pre v post : text) := Fields.email_shape v in
       (email r = None <->
        ~ exists pre v post,
            normalize t = pre ++ v ++ post /\ Fields.email_shape v)
       /\ (forall v,
             email r = Some v <->
             exists pre post,
               Fields.leftmost found (normalize t) pre v post
               /\ forall v' post',
                    v ++ post = v' ++ post' -> Fields.email_shape v' ->
                    length v' <= length v).
Proof.
  destruct (extract_fields_total t fn) as (r & E & He & _).
  exists r; split; auto. cbn zeta. rewrite He. unfold first_match.
  set (s := normalize t).
  assert (None_iff : search EMAIL_REGEX s = None <->
            ~ exists pre v post, s = pre ++ v ++ post /\ Fields.email_shape v).
  { rewrite search_none. split; intros H (pre & v & post & Hs & K); apply H;
      exists pre, v, post; split; auto; eapply EmailFacts.email_denote; eauto. }
  assert (Fwd : forall v, search EMAIL_REGEX s = Some v ->
            exists pre post,
              Fields.leftmost (fun _ v _ => Fields.email_shape v) s pre v post
              /\ forall v' post',
                   v ++ post = v' ++ post' -> Fields.email_shape v' ->
                   length v' <= length v).
  { intros v H.
    apply EmailFacts.search_from_match in H as (pre & post & Hs & M & Hmin).
    apply EmailFacts.email_longest in M as (m & Hm & Sh & Hmax).
    apply app_inv_tail in Hm. subst m.
    exists pre, post. split; [split; [auto|split; [auto|]]|auto].
    intros pre' v' post' Hs' K. apply (Hmin pre' v' post'); auto.
    apply EmailFacts.email_denote; auto. }
  split; [exact None_iff|].
  intros v; split; [apply Fwd|].
  intros (pre & post & (Hs & Sh & Hmin) & Hmax).
  destruct (search EMAIL_REGEX s) as [v0|] eqn:E0.
  - destruct (Fwd v0 eq_refl) as (pre0 & post0 & (Hs0 & Sh0 & Hmin0) & Hmax0).
    assert (L : length pre0 = length pre).
    { apply Nat.le_antisymm; [eapply Hmin0|eapply Hmin]; eauto. }
    rewrite Hs in Hs0.
    destruct (app_same_length _ _ _ _ Hs0 (eq_sym L)) as [_ Q].
    f_equal. symmetry. eapply FieldFacts.same_length_prefix; [|exact Q].
    apply Nat.le_antisymm.
    + apply (Hmax0 v post); auto.
    + apply (Hmax v0 post0); auto.
  - exfalso. apply None_iff; eauto 6.
Qed.

Lemma email_field_witness :
  exists pre post,
    Fields.leftmost (fun _ v _ => Fields.email_shape v)
      (normalize (str "Mail jane.doe@x.co.in.")) pre
      (str "jane.doe@x.co.in") post.
Proof.
  destruct (email_field (str "Mail jane.doe@x.co.in.") pdf)
    as (r & E & _ & H).
  vm_compute in E. inversion E; subst r; clear E.
  destruct (proj1 (H (str "jane.doe@x.co.in")) eq_refl)
    as (pre & post & L & _).
  exists pre, post; exact L.
Defined.

(** ** The fields read off the lines *)

Module LabelFacts.
Import Re ReSpec ReFacts Shape ShapeFacts RunFacts PyFacts ScanFacts
  BlankFacts AccountFacts Fields LineFacts.

Lemma is_name_line_iff ln : is_name_line ln = true <-> names_candidate ln.
Proof.
  unfold is_name_line, names_candidate.
  rewrite !andb_true_iff, !negb_true_iff. tauto.
Qed.

Lemma never_name_line lines :
  Forall (fun ln => ~ names_candidate ln) lines -> never is_name_line lines.
Proof.
  apply Forall_impl. intros ln H.
  destruct (is_name_line ln) eqn:E; auto.
  apply is_name_line_iff in E; contradiction.
Qed.

Lemma never_mentions_name_line lines :
  never (mentions "name") lines -> never is_name_line lines.
Proof.
  apply Forall_impl. intros ln H. unfold is_name_line. rewrite H; reflexivity.
Qed.

Lemma scan_name_first pre l post :
  never is_name_line pre -> is_name_line l = true ->
  scan_name (pre ++ l :: post) = Ok (Some (Pure.name_value_of l)).
Proof.
  intros H Hl. rewrite scan_name_pure, find_first; auto.
Qed.

Lemma scan_name_none lines :
  never is_name_line lines -> scan_name lines = Ok None.
Proof. intros H. rewrite scan_name_pure, find_none; auto. Qed.

Lemma name_value_no_colon l :
  ~ In (chr ":") l -> Pure.name_value_of l = Py.strip l.
Proof.
  intros H. unfold Pure.name_value_of.
  apply from_colon_none in H. rewrite H; reflexivity.
Qed.

Lemma name_value_colon a v :
  ~ In (chr ":") a ->
  Pure.name_value_of (a ++ chr ":" :: v) = Py.strip (Pure.until_colon v).
Proof.
  intros H. unfold Pure.name_value_of.
  assert (E : Pure.from_colon (a ++ chr ":" :: v) = Some v)
    by (apply from_colon_some; eauto).
  rewrite E; reflexivity.
Qed.

(** The lines of the line view are stripped. *)
Lemma lines_stripped t pre l post :
  trimmed_lines (normalize t) = pre ++ l :: post ->
  stripped l /\ Forall stripped post.
Proof.
  intros H. pose proof (trimmed_lines_stripped (normalize t)) as St.
  rewrite H in St. apply Forall_mid in St as (_ & ? & ?); auto.
Qed.

Lemma following_lines_stripped post :
  Forall stripped post -> Forall stripped (following_lines post).
Proof.
  induction 1 as [|ln post [Hs Hn] _ IH]; cbn [following_lines];
    [constructor|].
  destruct (Py.any_in SECTION_KEYS (Py.lower ln)); constructor; auto.
  rewrite Hs; split; auto.
Qed.

Lemma colon_fragment_stripped l :
  Forall stripped (Stated.colon_fragment l).
Proof.
  unfold Stated.colon_fragment.
  destruct (Stated.after_colon l) as [v|]; [|constructor].
  unfold nonempty. destruct (Py.text_eqb (Py.strip v) []) eqn:E;
    constructor; [|constructor].
  split; [apply strip_idem|apply text_eqb_neq; auto].
Qed.

Lemma after_colon_suffix l v :
  Stated.after_colon l = Some v -> exists a, l = a ++ chr ":" :: v.
Proof.
  change Stated.after_colon with Pure.from_colon.
  intros H. apply from_colon_some in H as (a & Ha & _); eauto.
Qed.

Lemma colon_fragment_no_break l :
  Forall (fun c => Chr.is_linebreak c = false) l ->
  Forall (Forall (fun c => Chr.is_linebreak c = false))
         (Stated.colon_fragment l).
Proof.
  intros H. unfold Stated.colon_fragment.
  destruct (Stated.after_colon l) as [v|] eqn:E; [|constructor].
  destruct (nonempty (Py.strip v)); constructor; [|constructor].
  apply after_colon_suffix in E as (a & ->).
  apply (substring_Forall _ (Py.strip v) v); [apply strip_substring|].
  apply Forall_app in H as [_ H]. inversion H; auto.
Qed.

Lemma following_lines_no_break post :
  Forall (Forall (fun c => Chr.is_linebreak c = false)) post ->
  Forall (Forall (fun c => Chr.is_linebreak c = false)) (following_lines post).
Proof.
  induction 1 as [|ln post H _ IH]; cbn [following_lines]; [constructor|].
  destruct (Py.any_in SECTION_KEYS (Py.lower ln)); constructor; auto.
  apply (substring_Forall _ (Py.strip ln) ln); auto using strip_substring.
Qed.

Lemma join_no_break parts :
  Forall (Forall (fun c => Chr.is_linebreak c = false)) parts ->
  Forall (fun c => Chr.is_linebreak c = false) (Py.join (str ", ") parts).
Proof.
  induction 1 as [|p [|q ps] H _ IH]; [constructor|exact H|].
  change (Py.join (str ", ") (p :: q :: ps))
    with (p ++ str ", " ++ Py.join (str ", ") (q :: ps)).
  apply Forall_app; split; auto.
  apply Forall_app; split; auto.
  repeat constructor.
Qed.

Lemma join_head sep p ps : exists tl, Py.join sep (p :: ps) = p ++ tl.
Proof.
  destruct ps as [|q ps]; simpl.
  - exists []; rewrite app_nil_r; auto.
  - eauto.
Qed.

Lemma firstn_through {A} (a : list A) x post n :
  length a < n ->
  exists tl, firstn n (a ++ x :: post) = a ++ x :: tl.
Proof.
  revert n; induction a as [|y a IH]; intros [|n] H; simpl in *; try lia.
  - eauto.
  - destruct (IH n) as [tl ->]; [lia|eauto].
Qed.

End LabelFacts.

(** X6. The bank account, when set, is a text of 9 to 18 digits that
    stands in the normalized text with no word character directly
    before or after it. *)
Theorem bank_account_format (t fn : text) (r : record) (b : text) :
  extract_fields_rule_based t fn = Ok r ->
  bank_account r = Some b ->
  forallb Chr.is_digit b = true
  /\ 9 <= length b <= 18
  /\ exists pre post,
       normalize t = pre ++ b ++ post /\ Fields.alone pre post.
Proof.
  intros E Hb.
  destruct (extract_fields_total t fn)
    as (r' & E' & _ & _ & _ & _ & _ & Hb' & _).
  rewrite E in E'; injection E' as <-.
  rewrite Hb in Hb'. symmetry in Hb'. unfold scan_bank_account in Hb'.
  apply pick_account_some in Hb' as (before & after & Hc & _).
  destruct (finditer_occurs ACCOUNT_REGEX (normalize t) b)
    as (pre & post & Hs & D).
  { rewrite Hc. apply in_or_app; right; left; auto. }
  apply account_denote in D as (Hp & Hd & Hl & Hr).
  repeat split; try tauto. exists pre, post; split; auto. split; auto.
Qed.

Lemma bank_account_format_witness :
  forallb Chr.is_digit (str "12345678901") = true
  /\ 9 <= length (str "12345678901") <= 18
  /\ exists pre post,
       normalize aadhaar_then_account = pre ++ str "12345678901" ++ post
       /\ Fields.alone pre post.
Proof.
  refine (bank_account_format aadhaar_then_account pdf
    (mkRecord None None None None (Some (str "123456789012")) None
       (Some (str "12345678901")) None None None pdf)
    (str "12345678901") _ _); reflexivity.
Defined.

(** X7. The candidate name is taken from the first line of the line
    view that mentions "name" and neither "father" nor "emergency",
    and it is null when there is no such line.  When that line has no
    colon the name is the whole line; when it has one, the name is
    the trimmed text between its first colon and the next colon, or
    the end of the line. *)
Theorem candidate_name (t fn : text) :
  exists r,
    extract_fields_rule_based t fn = Ok r
    /\ let lines := trimmed_lines (normalize t) in
       (Forall (fun ln => ~ Fields.names_candidate ln) lines ->
        name r = None)
       /\ (forall pre l post,
             lines = pre ++ l :: post ->
             Forall (fun ln => ~ Fields.names_candidate ln) pre ->
             Fields.names_candidate l ->
             (~ In (chr ":") l -> name r = Some l)
             /\ (forall a v,
                   l = a ++ chr ":" :: v -> ~ In (chr ":") a ->
                   name r = Some (Py.strip (Pure.until_colon v)))).
Proof.
  destruct (extract_fields_total t fn)
    as (r & E & _ & _ & _ & _ & _ & _ & _ & Hn & _).
  exists r; split; auto. cbn zeta. split.
  - intros H. apply LabelFacts.never_name_line in H.
    rewrite LabelFacts.scan_name_none in Hn by auto. congruence.
  - intros pre l post Hl Hpre Hc.
    destruct (LabelFacts.lines_stripped t pre l post Hl) as [[Sl _] _].
    rewrite Hl in Hn.
    rewrite LabelFacts.scan_name_first in Hn;
      [|apply LabelFacts.never_name_line; auto
       |apply LabelFacts.is_name_line_iff; auto].
    injection Hn as Hn. split.
    + intros Nc. rewrite LabelFacts.name_value_no_colon in Hn by auto.
      congruence.
    + intros a v -> Na. rewrite LabelFacts.name_value_colon in Hn by auto.
      congruence.
Qed.

Lemma candidate_name_witness :
  exists r,
    extract_fields_rule_based
      (unlines [str "Father's Name: R Doe"; str "Name: Jane Doe"]) pdf = Ok r
    /\ name r = Some (Py.strip (Pure.until_colon (str " Jane Doe"))).
Proof.
  destruct (candidate_name
              (unlines [str "Father's Name: R Doe"; str "Name: Jane Doe"]) pdf)
    as (r & E & _ & H).
  exists r; split; [exact E|].
  destruct (H [str "Father's Name: R Doe"] (str "Name: Jane Doe") [])
    as [_ K].
  - reflexivity.
  - constructor; [|constructor]. intros (_ & F & _). discriminate F.
  - repeat split.
  - apply (K (str "Name") (str " Jane Doe")); [reflexivity|].
    vm_compute. intuition discriminate.
Defined.

(** X8. The address, when set, is never the empty text: it begins
    with a character that is no white space, and it holds no line
    break, its lines being joined with [", "]. *)
Theorem address_format (t fn : text) (r : record) (a : text) :
  extract_fields_rule_based t fn = Ok r ->
  address r = Some a ->
  (exists c rest, a = c :: rest /\ Chr.is_space c = false)
  /\ Forall (fun c => Chr.is_linebreak c = false) a.
Proof.
  intros E Ha.
  destruct (extract_fields_total t fn)
    as (r' & E' & _ & _ & _ & _ & _ & _ & _ & _ & Had & _).
  rewrite E in E'; injection E' as <-.
  destruct (first_line (mentions "address") (trimmed_lines (normalize t)))
    as [H | (pre & l & post & Hl & Hpre & Hm)].
  { rewrite scan_address_none in Had by auto. congruence. }
  destruct (LabelFacts.lines_stripped t pre l post Hl) as [_ Sp].
  pose proof (LineFacts.trimmed_lines_spec (normalize t)) as Sub.
  rewrite Hl in Had, Sub.
  rewrite scan_address_some in Had by auto.
  injection Had as Had. rewrite Ha in Had.
  apply Forall_mid in Sub as (_ & (_ & _ & Bl) & Bp).
  assert (Fs : Forall stripped
                 (Stated.colon_fragment l ++ following_lines post)).
  { apply Forall_app; split;
      [apply LabelFacts.colon_fragment_stripped
      |apply LabelFacts.following_lines_stripped; auto]. }
  assert (Fb : Forall (Forall (fun c => Chr.is_linebreak c = false))
                 (Stated.colon_fragment l ++ following_lines post)).
  { apply Forall_app; split;
      [apply LabelFacts.colon_fragment_no_break; auto
      |apply LabelFacts.following_lines_no_break].
    eapply Forall_impl; [|exact Bp]. cbn beta; tauto. }
  destruct (Stated.colon_fragment l ++ following_lines post) as [|x xs];
    [discriminate|].
  assert (Ea : a = Py.join (str ", ") (x :: xs))
    by (cbn [Stated.joined] in Had; congruence).
  clear Had. rewrite Ea.
  split; [|exact (LabelFacts.join_no_break (x :: xs) Fb)].
  inversion Fs as [|? ? [Sx Nx] _]; subst.
  destruct (LabelFacts.join_head (str ", ") x xs) as [tl ->].
  destruct x as [|c x']; [contradiction|].
  exists c, (x' ++ tl); split; auto.
  eapply LineFacts.strip_first; eauto.
Qed.

Lemma address_format_witness :
  (exists c rest, str "12 MG Road, Bangalore" = c :: rest
                  /\ Chr.is_space c = false)
  /\ Forall (fun c => Chr.is_linebreak c = false)
            (str "12 MG Road, Bangalore").
Proof.
  refine (address_format address_block pdf
    (mkRecord None None None None None (Some (str "12 MG Road, Bangalore"))
       None None None None pdf)
    (str "12 MG Road, Bangalore") _ _); reflexivity.
Defined.

(** X9. When the line the candidate name is taken from ends with its
    only colon, the name is the empty text, not null: the value is
    not looked for on the next line. *)
Theorem name_after_bare_label (t fn : text) (pre : list text) (a : text)
    (post : list text) :
  trimmed_lines (normalize t) = pre ++ (a ++ [chr ":"]) :: post ->
  Forall (fun ln => ~ Fields.names_candidate ln) pre ->
  Fields.names_candidate (a ++ [chr ":"]) ->
  ~ In (chr ":") a ->
  exists r, extract_fields_rule_based t fn = Ok r /\ name r = Some [].
Proof.
  intros Hl Hpre Hc Na.
  destruct (extract_fields_total t fn)
    as (r & E & _ & _ & _ & _ & _ & _ & _ & Hn & _).
  exists r; split; auto.
  rewrite Hl in Hn.
  rewrite LabelFacts.scan_name_first in Hn;
    [|apply LabelFacts.never_name_line; auto
     |apply LabelFacts.is_name_line_iff; auto].
  rewrite (LabelFacts.name_value_colon a []) in Hn by auto.
  injection Hn as Hn. rewrite <- Hn. reflexivity.
Qed.

Lemma name_after_bare_label_witness :
  exists r,
    extract_fields_rule_based (unlines [str "Name:"; str "Jane Doe"]) pdf
    = Ok r
    /\ name r = Some [].
Proof.
  apply (name_after_bare_label (unlines [str "Name:"; str "Jane Doe"]) pdf
           [] (str "Name") [str "Jane Doe"]).
  - reflexivity.
  - constructor.
  - repeat split.
  - vm_compute. intuition discriminate.
Defined.

(** X10. A text that holds white space only (spaces, tabs, line
    breaks) gives the record with every field null but the file
    name. *)
Theorem whitespace_only_text (t fn : text) :
  Forall (fun c => Chr.is_space c = true) t ->
  extract_fields_rule_based t fn = Ok (Stated.null_record fn).
Proof.
  intros B. apply blank_normalize in B.
  unfold extract_fields_rule_based, first_match, scan_phone,
    scan_bank_account.
  rewrite (blank_lines _ B).
  rewrite !blank_search by
    auto using email_visible, phone_visible, pan_visible, aadhaar_visible,
      ifsc_visible.
  rewrite no_occurrence_finditer
    by (apply blank_no_occurrence; auto using account_visible).
  reflexivity.
Qed.

Lemma whitespace_only_text_witness :
  extract_fields_rule_based (str "  " ++ [LF; CR] ++ str " ") pdf
  = Ok (Stated.null_record pdf).
Proof.
  apply whitespace_only_text. repeat constructor.
Defined.

(** X13. When the first line of the line view that mentions "name"
    stands within the four lines after the first line that mentions
    "emergency", and mentions neither "father" nor "emergency"
    itself, the candidate name and the emergency-contact name are
    both taken from it: they are the same. *)
Theorem name_from_emergency_block (t fn : text) (p1 : list text) (e : text)
    (p2 : list text) (l : text) (post : list text) :
  trimmed_lines (normalize t) = p1 ++ e :: p2 ++ l :: post ->
  never (mentions "name") (p1 ++ e :: p2) ->
  never (mentions "emergency") p1 ->
  mentions "emergency" e = true ->
  length p2 <= 3 ->
  Fields.names_candidate l ->
  exists r,
    extract_fields_rule_based t fn = Ok r
    /\ name r = Some (Pure.name_value_of l)
    /\ emergency_contact_name r = Some (Pure.name_value_of l).
Proof.
  intros Hl Hno Hp1 He Hlen Hc.
  destruct (extract_fields_total t fn)
    as (r & E & _ & _ & _ & _ & _ & _ & Hem & Hn & _).
  exists r; split; auto. rewrite Hl in Hem, Hn. split.
  - replace (p1 ++ e :: p2 ++ l :: post)
      with ((p1 ++ e :: p2) ++ l :: post) in Hn
      by (rewrite <- app_assoc; reflexivity).
    rewrite LabelFacts.scan_name_first in Hn;
      [congruence
      |apply LabelFacts.never_mentions_name_line; auto
      |apply LabelFacts.is_name_line_iff; auto].
  - rewrite scan_emergency_some in Hem by auto. cbn zeta in Hem.
    destruct (LabelFacts.firstn_through (e :: p2) l post 5) as [tl Hw];
      [simpl; lia|].
    change (e :: p2 ++ l :: post) with ((e :: p2) ++ l :: post) in Hem.
    rewrite Hw in Hem.
    apply Forall_app in Hno as [_ Hno].
    destruct Hc as (Hname & _).
    rewrite find_first in Hem by auto.
    cbn [option_map] in Hem. congruence.
Qed.

Lemma name_from_emergency_block_witness :
  exists r,
    extract_fields_rule_based emergency_block pdf = Ok r
    /\ name r = Some (Pure.name_value_of (str "Name: John Smith"))
    /\ emergency_contact_name r
       = Some (Pure.name_value_of (str "Name: John Smith")).
Proof.
  apply (name_from_emergency_block emergency_block pdf
           [] (str "Emergency Contact") [] (str "Name: John Smith")
           [str "Phone: 9876543210"]).
  - reflexivity.
  - repeat constructor.
  - constructor.
  - reflexivity.
  - simpl; lia.
  - repeat split.
Defined.

(** ** The handler of the button *)

Module HandlerFacts.

Section WithReader.

Variable pdf_pages : list Byte.byte -> result (list (option text)).

(** Either every file can be read, or there is a first one on which
    the reader raises. *)
Lemma first_unreadable files :
  Forall (readable pdf_pages) files
  \/ exists before f after e,
       files = before ++ f :: after
       /\ Forall (readable pdf_pages) before
       /\ pdf_pages (read f) = Raise e.
Proof.
  induction files as [|f files IH]; [left; constructor|].
  destruct (pdf_pages (read f)) as [pages|e] eqn:R.
  - destruct IH as [H | (before & g & after & e & -> & Hb & Hg)].
    + left; constructor; auto. exists pages; auto.
    + right; exists (f :: before), g, after, e; repeat split; auto.
      constructor; auto. exists pages; auto.
  - right; exists [], f, files, e; repeat split; auto.
Qed.

Lemma rows_names files rows :
  Forall2 (row_of pdf_pages) files rows ->
  length rows = length files
  /\ map source_file_name rows = map file_name files.
Proof.
  induction 1 as [|f row files rows (pages & _ & _ & Hn & _) _ [IH1 IH2]];
    simpl; auto.
  split; congruence.
Qed.

Lemma process_app a : forall b results,
  process pdf_pages (a ++ b) results
  = bind (process pdf_pages a results) (process pdf_pages b).
Proof.
  induction a as [|f a IH]; intros b results; [reflexivity|].
  cbn [app process].
  destruct (extract_text_from_pdf_bytes pdf_pages (read f)) as [t|e];
    [|reflexivity].
  cbn [bind].
  destruct (extract_fields_rule_based t (file_name f)) as [row|e];
    [|reflexivity].
  cbn [bind]. apply IH.
Qed.

Lemma process_appends files : forall results out,
  process pdf_pages files results = Ok out ->
  exists rows, out = results ++ rows /\ length rows = length files.
Proof.
  induction files as [|f files IH]; intros results out H.
  - injection H as <-. exists []; rewrite app_nil_r; auto.
  - cbn [process] in H.
    destruct (extract_text_from_pdf_bytes pdf_pages (read f)) as [t|e];
      [|discriminate].
    cbn [bind] in H.
    destruct (extract_fields_rule_based t (file_name f)) as [row|e];
      [|discriminate].
    cbn [bind] in H. apply IH in H as (rows & -> & L).
    exists (row :: rows); rewrite <- app_assoc; split; auto.
    simpl; lia.
Qed.

End WithReader.

End HandlerFacts.

(** X11. The handler of the button: with no uploaded file it shows
    the warning and returns no record; with files the reader can all
    read it shows the table, with one row per file, in the order of
    the files and with their names; and when it raises, the
    exception is the one the reader raised on one of the files: the
    extractor itself never makes it raise. *)
Theorem handler_outcomes
    (pdf_pages : list Byte.byte -> result (list (option text)))
    (files : list uploaded_file) :
  (files = [] -> on_extract pdf_pages files = Ok Warning)
  /\ (files <> [] -> Forall (readable pdf_pages) files ->
      exists rows,
        on_extract pdf_pages files = Ok (Table rows)
        /\ length rows = length files
        /\ map source_file_name rows = map file_name files)
  /\ (forall e,
        on_extract pdf_pages files = Raise e ->
        exists f, In f files /\ pdf_pages (read f) = Raise e).
Proof.
  split; [intros ->; reflexivity|]. split.
  - intros Hne H.
    destruct (process_readable pdf_pages files [] H) as (rows & Hp & F).
    destruct (HandlerFacts.rows_names pdf_pages files rows F) as [L N].
    exists rows. repeat split; auto.
    destruct files as [|f files]; [contradiction|].
    unfold on_extract. rewrite Hp. cbn [bind app].
    destruct rows; [discriminate L|reflexivity].
  - intros e H. destruct files as [|f files]; [discriminate|].
    unfold on_extract in H.
    destruct (HandlerFacts.first_unreadable pdf_pages (f :: files))
      as [R | (before & g & after & e' & Hs & Hb & Hg)].
    + destruct (process_readable pdf_pages (f :: files) [] R)
        as (rows & Hp & _).
      rewrite Hp in H. discriminate.
    + rewrite Hs in H.
      rewrite (process_unreadable pdf_pages before g after e' [] Hb Hg) in H.
      injection H as <-. exists g; split; auto.
      rewrite Hs. apply in_or_app; right; left; auto.
Qed.

Lemma handler_outcomes_witness :
  (exists rows,
     on_extract reader [mkFile [Byte.x25] (str "1.pdf")] = Ok (Table rows)
     /\ length rows = 1
     /\ map source_file_name rows = [str "1.pdf"])
  /\ exists f, In f batch /\ reader (read f) = Raise PdfError.
Proof.
  split.
  - apply (proj1 (proj2 (handler_outcomes reader
                           [mkFile [Byte.x25] (str "1.pdf")]))).
    + discriminate.
    + repeat constructor. exists [None]; reflexivity.
  - apply (proj2 (proj2 (handler_outcomes reader batch)) PdfError).
    reflexivity.
Defined.

(** X12. The upload loop only appends: the records already collected
    stay as they are, in front, and one record is added per file;
    and the loop over two lists of files one after the other is the
    loop over the first, then the loop over the second from the
    records of the first. *)
Theorem process_composes
    (pdf_pages : list Byte.byte -> result (list (option text)))
    (a b : list uploaded_file) (results : list record) :
  process pdf_pages (a ++ b) results
  = bind (process pdf_pages a results) (process pdf_pages b)
  /\ forall out,
       process pdf_pages a results = Ok out ->
       exists rows, out = results ++ rows /\ length rows = length a.
Proof.
  split; [apply HandlerFacts.process_app|].
  intros out H. eapply HandlerFacts.process_appends; eauto.
Qed.

Lemma process_composes_witness :
  exists rows,
    [Stated.null_record (str "0.pdf"); Stated.null_record (str "1.pdf")]
    = [Stated.null_record (str "0.pdf")] ++ rows
    /\ length rows = 1.
Proof.
  apply (proj2 (process_composes reader [mkFile [Byte.x25] (str "1.pdf")] []
                  [Stated.null_record (str "0.pdf")])).
  reflexivity.
Defined.

(** ** The phone of the emergency contact and the phone *)

Module PhoneFacts.
Import PyFacts ScanFacts Fields LineFacts.

Lemma has_phone_substring ln s :
  substring ln s -> has_phone ln -> has_phone s.
Proof.
  intros (pre & post & ->) (a & m & b & -> & Sh).
  exists (pre ++ a), m, (b ++ post); split; auto.
  rewrite <- !app_assoc; reflexivity.
Qed.

Lemma block_phone_line block p :
  block_phone block = Some p -> exists ln, In ln block /\ has_phone ln.
Proof.
  induction block as [|ln block IH]; simpl; [discriminate|].
  destruct (Re.search PHONE_REGEX ln) as [m|] eqn:E.
  - intros _. exists ln; split; auto.
    apply has_phone_occurs. 
    apply ReFacts.search_some in E as (pre & post & O & _).
    exists pre, m, post; auto.
  - intros H. apply IH in H as (x & Hx & Hp). eauto.
Qed.

Lemma In_firstn {A} n (l : list A) x : In x (firstn n l) -> In x l.
Proof.
  intros H. rewrite <- (firstn_skipn n l). apply in_or_app; auto.
Qed.

End PhoneFacts.

(** X14. When the phone of the emergency contact is set, the phone
    field is set too: a phone number found in a line of the emergency
    block is a phone number of the whole text. *)
Theorem emergency_phone_needs_phone (t fn : text) (r : record) (p : text) :
  extract_fields_rule_based t fn = Ok r ->
  emergency_contact_phone r = Some p ->
  exists q, phone r = Some q /\ Shape.phone_body q.
Proof.
  intros E Hp.
  destruct (extract_fields_total t fn)
    as (r' & E' & _ & Hph & _ & _ & _ & _ & Hem & _).
  rewrite E in E'; injection E' as <-.
  rewrite Hph. apply scan_phone_found.
  destruct (first_line (mentions "emergency") (trimmed_lines (normalize t)))
    as [H | (pre & l & post & Hl & Hpre & Hm)].
  { rewrite scan_emergency_none in Hem by auto. congruence. }
  pose proof (LineFacts.trimmed_lines_spec (normalize t)) as Sub.
  rewrite Hl in Hem, Sub.
  rewrite scan_emergency_some in Hem by auto. cbn zeta in Hem.
  assert (Hb : block_phone (firstn 5 (l :: post)) = Some p) by congruence.
  clear Hem.
  apply PhoneFacts.block_phone_line in Hb as (ln & Hin & Hh).
  apply PhoneFacts.In_firstn in Hin.
  apply Forall_app in Sub as [_ Sub].
  rewrite Forall_forall in Sub. destruct (Sub ln Hin) as (S & _).
  eapply PhoneFacts.has_phone_substring; eauto.
Qed.

Lemma emergency_phone_needs_phone_witness :
  exists q, Some (str "9876543210") = Some q /\ Shape.phone_body q.
Proof.
  refine (emergency_phone_needs_phone emergency_block pdf
    (mkRecord (Some (str "John Smith")) None (Some (str "9876543210")) None
       None None (Some (str "9876543210")) None (Some (str "John Smith"))
       (Some (str "9876543210")) pdf)
    (str "9876543210") _ _); reflexivity.
Defined.
